(** * geo_utils: interior point, overlap test and vertex enumeration of
    convex polyhedra (GCOPTER, [gcopter/include/gcopter/geo_utils.hpp]).

    The C++ [double] is IEEE-754 binary64; it is embedded as Rocq's primitive
    [float], whose operations are the binary64 ones (round to nearest even, one
    NaN).  Eigen matrices are embedded as lists: a [MatrixX4d] is the list of
    its rows, a [Matrix3Xd] the list of its columns.  The two external solvers
    ([sdlp::linprog] and [quickhull::QuickHull]) are not part of the header and
    are parameters of the development.

    Row and column counts and indices are natural numbers: the [int] counters
    of the header do not wrap for matrices of fewer than 2^31 rows or columns.
    A function that can run into an Eigen assertion or read outside a buffer
    returns an [option], and [None] stands for that failure. *)

From Stdlib Require Import ZArith Lia Bool List Floats.
From stdpp Require Import base option list.
Import ListNotations.

Local Open Scope float_scope.

(** ** Order of binary64 numbers

    The comparisons of two numbers that are not NaN are those of their ranks,
    triples of integers compared lexicographically.  Every comparison with a
    NaN is false. *)
Module FloatOrder.

Definition num (f : spec_float) : bool :=
  match f with S754_nan => false | _ => true end.

Definition rank (f : spec_float) : Z * Z * Z :=
  match f with
  | S754_zero _ => (0, 0, 0)%Z
  | S754_infinity false => (2, 0, 0)%Z
  | S754_infinity true => (-2, 0, 0)%Z
  | S754_nan => (0, 0, 0)%Z
  | S754_finite false m e => (1, e, Zpos m)%Z
  | S754_finite true m e => (-1, - e, Zneg m)%Z
  end.

Definition lex_lt (a b : Z * Z * Z) : Prop :=
  (a.1.1 < b.1.1 \/
   (a.1.1 = b.1.1 /\ (a.1.2 < b.1.2 \/ (a.1.2 = b.1.2 /\ a.2 < b.2))))%Z.

Definition lex_eq (a b : Z * Z * Z) : Prop :=
  (a.1.1 = b.1.1 /\ a.1.2 = b.1.2 /\ a.2 = b.2)%Z.

Definition lex_le (a b : Z * Z * Z) : Prop := lex_lt a b \/ lex_eq a b.

Definition lex_opp (a : Z * Z * Z) : Z * Z * Z :=
  (- a.1.1, - a.1.2, - a.2)%Z.

Definition lex_abs (a : Z * Z * Z) : Z * Z * Z :=
  if (a.1.1 <? 0)%Z then lex_opp a else a.

(** The ranks that numbers have: the class is between -2 (minus infinity) and
    2 (plus infinity), zeros and infinities have no exponent or mantissa, and
    the mantissa of a finite number carries its sign. *)
Definition rank_wf (a : Z * Z * Z) : Prop :=
  (-2 <= a.1.1 <= 2 /\
   (a.1.1 = 0 \/ a.1.1 = 2 \/ a.1.1 = -2 -> a.1.2 = 0 /\ a.2 = 0) /\
   (a.1.1 = 1 -> 0 < a.2) /\ (a.1.1 = -1 -> a.2 < 0))%Z.

(** Number of the float [x], and its rank. *)
Definition fnum (x : float) : bool := num (Prim2SF x).
Definition frank (x : float) : Z * Z * Z := rank (Prim2SF x).

End FloatOrder.

(** ** The header [geo_utils.hpp] *)
Module geo_utils.

(** *** Scalars and small vectors *)

(** [DBL_EPSILON] of [<cfloat>]: 2^-52. *)
Definition DBL_EPSILON : float := 0x1p-52.

(** [std::max(a, b)] is [(a < b) ? b : a] and [std::min(a, b)] is
    [(b < a) ? b : a]. *)
Definition std_max (a b : float) : float := if a <? b then b else a.
Definition std_min (a b : float) : float := if b <? a then b else a.

(** [fabs] and [std::isinf]. *)
Definition fabs (x : float) : float := abs x.
Definition isinf (x : float) : bool := is_infinity x.

(** [std::round]: to the nearest integer, halfway cases away from zero; zeros,
    infinities and NaN are returned as they are.  A finite number is
    [(-1)^s * m * 2^e]; with [e >= 0] it is an integer already. *)
Definition SFround (f : spec_float) : spec_float :=
  match f with
  | S754_finite s m e =>
      if (0 <=? e)%Z then f
      else
        match ((Zpos m + 2 ^ (- e - 1)) / 2 ^ (- e))%Z with
        | Zpos n => S754_finite s n 0
        | _ => S754_zero s
        end
  | _ => f
  end.

Definition round (x : float) : float := SF2Prim (SFround (Prim2SF x)).

(** [Eigen::Vector3d], read with [l(0)], [l(1)], [l(2)]. *)
Record Vector3d : Type := V3 { v0 : float; v1 : float; v2 : float }.

(** [Eigen::Vector4d]; a row [h0, h1, h2, h3] of a half-space system stands
    for [h0*x + h1*y + h2*z + h3 <= 0]. *)
Record Vector4d : Type := V4 { h0 : float; h1 : float; h2 : float; h3 : float }.

(** [Eigen::MatrixX4d] by rows, [Eigen::Matrix3Xd] by columns,
    [Eigen::VectorXd] by entries. *)
Abbreviation MatrixX4d := (list Vector4d).
Abbreviation Matrix3Xd := (list Vector3d).
Abbreviation VectorXd := (list float).

(** [leftCols<3>()] of a row, and [head<3>()] of a 4-vector. *)
Definition leftCols3 (h : Vector4d) : Vector3d := V3 (h0 h) (h1 h) (h2 h).
Definition head3 (x : Vector4d) : Vector3d := V3 (h0 x) (h1 x) (h2 x).

Definition v3_add (a b : Vector3d) : Vector3d :=
  V3 (v0 a + v0 b) (v1 a + v1 b) (v2 a + v2 b).
Definition v3_sub (a b : Vector3d) : Vector3d :=
  V3 (v0 a - v0 b) (v1 a - v1 b) (v2 a - v2 b).
Definition v3_div (a : Vector3d) (s : float) : Vector3d :=
  V3 (v0 a / s) (v1 a / s) (v2 a / s).
Definition v3_round (a : Vector3d) : Vector3d :=
  V3 (round (v0 a)) (round (v1 a)) (round (v2 a)).

(** Sums of three products are taken left to right.  (Eigen groups them as its
    vectorisation settings dictate; nothing below depends on the grouping.) *)
Definition dot (a b : Vector3d) : float :=
  v0 a * v0 b + v1 a * v1 b + v2 a * v2 b.
Definition norm (a : Vector3d) : float := sqrt (dot a a).
Definition cross (a b : Vector3d) : Vector3d :=
  V3 (v1 a * v2 b - v2 a * v1 b)
     (v2 a * v0 b - v0 a * v2 b)
     (v0 a * v1 b - v1 a * v0 b).

(** The coefficients of a [Matrix3Xd] in storage (column-major) order. *)
Definition coeffs (rV : Matrix3Xd) : list float :=
  flat_map (fun p => [v0 p; v1 p; v2 p]) rV.

(** [maxCoeff()] and [minCoeff()]: a reduction with [std::max] ([std::min])
    from the first coefficient on.  Eigen asserts that the matrix is not
    empty: [None] is the failed assertion. *)
Definition maxCoeff (rV : Matrix3Xd) : option float :=
  match coeffs rV with
  | [] => None
  | c :: cs => Some (fold_left std_max cs c)
  end.
Definition minCoeff (rV : Matrix3Xd) : option float :=
  match coeffs rV with
  | [] => None
  | c :: cs => Some (fold_left std_min cs c)
  end.

(** *** [filterLess] and the [std::set] ordered by it *)

Definition filterLess (l r : Vector3d) : bool :=
  (v0 l <? v0 r) ||
  ((v0 l =? v0 r) &&
   ((v1 l <? v1 r) ||
    ((v1 l =? v1 r) &&
     (v2 l <? v2 r)))).

(** A [std::set<Vector3d, filterLess>] is embedded as the sequence of its
    elements in the order the container keeps them.  [find] takes the first
    element that is not less than the key (the lower bound) and reports it when
    the key is not less than it either.  [insert] places the key before the
    first element it is less than, unless the element before that place is not
    less than the key (the key is there already).  The red-black tree of the
    library makes the same decisions as this walk along the sequence whenever
    [filterLess] orders the keys involved in a line, or tells none of them
    apart; the statements below are about such sets. *)
Abbreviation key_set := (list Vector3d).

Fixpoint lower_bound (k : Vector3d) (s : key_set) : option Vector3d :=
  match s with
  | [] => None
  | e :: s' => if filterLess e k then lower_bound k s' else Some e
  end.

Definition set_find (k : Vector3d) (s : key_set) : bool :=
  match lower_bound k s with
  | Some e => negb (filterLess k e)
  | None => false
  end.

Fixpoint set_insert_after (j k : Vector3d) (s : key_set) : key_set :=
  match s with
  | [] => if filterLess j k then [k] else []
  | e :: s' =>
      if filterLess k e
      then (if filterLess j k then k :: s else s)
      else e :: set_insert_after e k s'
  end.

Definition set_insert (k : Vector3d) (s : key_set) : key_set :=
  match s with
  | [] => [k]
  | e :: s' => if filterLess k e then k :: s else e :: set_insert_after e k s'
  end.

(** *** [filterVs] *)

Definition filterVs_mag (hi lo : float) : float :=
  std_max (fabs hi) (fabs lo).
Definition filterVs_res (mag epsilon : float) : float :=
  mag * std_max (fabs epsilon / mag) DBL_EPSILON.

(** [quanti = (rV.col(i) / res).array().round()]. *)
Definition quantize (res : float) (p : Vector3d) : Vector3d :=
  v3_round (v3_div p res).

(** The state of the loop: the set [filter], the output buffer [fV] and the
    write position [offset]. *)
Record filter_state : Type :=
  FilterState { filter : key_set; fV : Matrix3Xd; offset : nat }.

(** One turn of the loop, for the column index [i]. *)
Definition filterVs_step (res : float) (rV : Matrix3Xd)
    (st : filter_state) (i : nat) : filter_state :=
  match rV !! i with
  | None => st
  | Some col =>
      let quanti := quantize res col in
      if set_find quanti (filter st) then st
      else FilterState (set_insert quanti (filter st))
                       (<[offset st := col]> (fV st))
                       (S (offset st))
  end.

Definition filterVs_loop (res : float) (rV : Matrix3Xd) : filter_state :=
  fold_left (filterVs_step res rV) (seq 0 (length rV)) (FilterState [] rV 0).

(** [mag = std::max(fabs(rV.maxCoeff()), fabs(rV.minCoeff()))]. *)
Definition cloud_mag (rV : Matrix3Xd) : option float :=
  match maxCoeff rV, minCoeff rV with
  | Some hi, Some lo => Some (filterVs_mag hi lo)
  | _, _ => None
  end.

(** [filterVs(rV, epsilon, fV)]: the result is the final content of [fV]. *)
Definition filterVs (rV : Matrix3Xd) (epsilon : float) : option Matrix3Xd :=
  match cloud_mag rV with
  | Some mag =>
      let res := filterVs_res mag epsilon in
      let st := filterVs_loop res rV in
      Some (take (offset st) (fV st))
  | None => None
  end.

(** *** The functions that call the external solvers *)
Section Oracles.

(** [sdlp::linprog<4>(c, A, b, x)]: the returned objective value and the
    point written to [x]. *)
Variable linprog : Vector4d -> MatrixX4d -> VectorXd -> float * Vector4d.

(** [qh.getConvexHull(points, n, CCW, useOriginalIndices, eps)] followed by
    [getIndexBuffer()]: the index buffer of the hull. *)
Variable getConvexHull : Matrix3Xd -> bool -> bool -> float -> list nat.

(** [quickhull::defaultEps<double>()]. *)
Variable defaultEps : float.

(** [c.setZero(); c(3) = -1.0]. *)
Definition shift_objective : Vector4d := V4 0 0 0 (-1).

(** The constraint matrix and right-hand side [findInterior] builds: row [i]
    of [A] is the normal of row [i] divided by its norm, then [1.0]; entry [i]
    of [b] is [-h3] divided by that norm. *)
Definition hNorm (hPoly : MatrixX4d) : VectorXd :=
  map (fun h => norm (leftCols3 h)) hPoly.
Definition findInterior_A (hPoly : MatrixX4d) : MatrixX4d :=
  zip_with (fun h n => V4 (h0 h / n) (h1 h / n) (h2 h / n) 1) hPoly (hNorm hPoly).
Definition findInterior_b (hPoly : MatrixX4d) : VectorXd :=
  zip_with (fun h n => - h3 h / n) hPoly (hNorm hPoly).

(** [findInterior(hPoly, interior)]: the returned flag and the final content
    of the output parameter [interior], whose content at the call is the
    second argument. *)
Definition findInterior (hPoly : MatrixX4d) (interior : Vector3d)
    : bool * Vector3d :=
  let '(minmaxsd, x) :=
    linprog shift_objective (findInterior_A hPoly) (findInterior_b hPoly) in
  let interior := head3 x in
  ((minmaxsd <? 0) && negb (isinf minmaxsd), interior).

(** The system [overlap] builds: the rows of [hPoly0], then those of
    [hPoly1], each with [1.0] in its last column; [b] holds the [-h3]. *)
Definition overlap_A (hPoly0 hPoly1 : MatrixX4d) : MatrixX4d :=
  map (fun h => V4 (h0 h) (h1 h) (h2 h) 1) hPoly0 ++
  map (fun h => V4 (h0 h) (h1 h) (h2 h) 1) hPoly1.
Definition overlap_b (hPoly0 hPoly1 : MatrixX4d) : VectorXd :=
  map (fun h => - h3 h) hPoly0 ++ map (fun h => - h3 h) hPoly1.

Definition overlap (hPoly0 hPoly1 : MatrixX4d) (eps : float) : bool :=
  let '(minmaxsd, x) :=
    linprog shift_objective (overlap_A hPoly0 hPoly1) (overlap_b hPoly0 hPoly1) in
  (minmaxsd <? - eps) && negb (isinf minmaxsd).

(** [enumerateVs(hPoly, inner, vPoly, epsilon)].  [b] and [A] are the two
    local matrices of the function. *)
Definition enumerateVs_b (hPoly : MatrixX4d) (inner : Vector3d) : VectorXd :=
  map (fun h => - h3 h - dot (leftCols3 h) inner) hPoly.
Definition enumerateVs_A (hPoly : MatrixX4d) (inner : Vector3d) : Matrix3Xd :=
  zip_with (fun h bi => v3_div (leftCols3 h) bi) hPoly (enumerateVs_b hPoly inner).

(** The body of the loop over the facets: column [i] of [rV].  An index
    outside its buffer is [None]. *)
Definition facet_vertex (A : Matrix3Xd) (idBuffer : list nat) (i : nat)
    : option Vector3d :=
  match idBuffer !! (3 * i + 1)%nat, idBuffer !! (3 * i)%nat,
        idBuffer !! (3 * i + 2)%nat with
  | Some i1, Some i0, Some i2 =>
      match A !! i1, A !! i0, A !! i2 with
      | Some point, Some a0, Some a2 =>
          let edge0 := v3_sub point a0 in
          let edge1 := v3_sub a2 point in
          let normal := cross edge0 edge1 in
          Some (v3_div normal (dot normal point))
      | _, _, _ => None
      end
  | _, _, _ => None
  end.

Definition enumerateVs (hPoly : MatrixX4d) (inner : Vector3d)
    (epsilon : float) : option Matrix3Xd :=
  let A := enumerateVs_A hPoly inner in
  let qhullEps := std_min epsilon defaultEps in
  let idBuffer := getConvexHull A false true qhullEps in
  let hNum := (length idBuffer / 3)%nat in
  match mapM (facet_vertex A idBuffer) (seq 0 hNum) with
  | None => None
  | Some rV =>
      match filterVs rV epsilon with
      | None => None
      | Some vPoly => Some (map (fun p => v3_add p inner) vPoly)
      end
  end.

(** The overload [enumerateVs(hPoly, vPoly, epsilon)]: the returned flag and
    the final content of [vPoly], whose content at the call is the second
    argument.  [inner0] is the indeterminate content of the local [inner]
    before [findInterior] writes it. *)
Definition enumerateVs_auto (hPoly : MatrixX4d) (vPoly : Matrix3Xd)
    (epsilon : float) (inner0 : Vector3d) : option (bool * Matrix3Xd) :=
  let '(found, inner) := findInterior hPoly inner0 in
  if found then
    match enumerateVs hPoly inner epsilon with
    | None => None
    | Some vPoly' => Some (true, vPoly')
    end
  else Some (false, vPoly).

End Oracles.

End geo_utils.

(** ** The specification's own descriptions

    These definitions follow the words of the specification; the theorems
    below compare them with the functions of [geo_utils]. *)
Module Spec.
Import geo_utils.

(** "Form the dual point for row i as [n_i / b_i']", where
    [b_i' = -d_i - n_i . interior]. *)
Definition dual_point (inner : Vector3d) (h : Vector4d) : Vector3d :=
  v3_div (leftCols3 h) (- h3 h - dot (leftCols3 h) inner).

(** "[edge0 = p1 - p0], [edge1 = p2 - p1], [normal = edge0 x edge1].  The
    corresponding primal vertex is [normal / (normal . p1)]." *)
Definition primal_vertex (f : Vector3d * Vector3d * Vector3d) : Vector3d :=
  let '(p0, p1, p2) := f in
  let normal := cross (v3_sub p1 p0) (v3_sub p2 p1) in
  v3_div normal (dot normal p1).

(** The triangular facets of the hull "in the hull's emitted order": the
    index buffer read three indices at a time, each index a column of the
    point buffer.  Indices left over after the last full triple are not a
    facet. *)
Fixpoint facets (pts : Matrix3Xd) (idBuffer : list nat)
    : option (list (Vector3d * Vector3d * Vector3d)) :=
  match idBuffer with
  | i0 :: i1 :: i2 :: rest =>
      match pts !! i0, pts !! i1, pts !! i2, facets pts rest with
      | Some p0, Some p1, Some p2, Some fs => Some ((p0, p1, p2) :: fs)
      | _, _, _, _ => None
      end
  | _ => Some []
  end.

(** Two keys are one element of a [std::set] when neither is less than the
    other. *)
Definition same_key (a b : Vector3d) : bool :=
  negb (filterLess a b) && negb (filterLess b a).

(** Two keys are the same when they are equal, axis by axis, as numbers. *)
Definition key_eqb (a b : Vector3d) : bool :=
  (v0 a =? v0 b) && (v1 a =? v1 b) && (v2 a =? v2 b).

(** "Keep the first point encountered for each new key; drop all later points
    mapping to an already-seen key."  [earlier] holds the keys of all the
    points met so far. *)
Fixpoint first_of_each_key (key : Vector3d -> Vector3d)
    (earlier : list Vector3d) (pts : Matrix3Xd) : Matrix3Xd :=
  match pts with
  | [] => []
  | p :: rest =>
      if existsb (key_eqb (key p)) earlier
      then first_of_each_key key (key p :: earlier) rest
      else p :: first_of_each_key key (key p :: earlier) rest
  end.

(** No two keys of a list are the same, for the notion [same] of sameness. *)
Fixpoint pairwise_distinct (same : Vector3d -> Vector3d -> bool)
    (ks : list Vector3d) : bool :=
  match ks with
  | [] => true
  | k :: rest =>
      forallb (fun k' => negb (same k k')) rest && pairwise_distinct same rest
  end.

(** [mag] is "the largest absolute coordinate value across the whole cloud". *)
Definition largest_abs (mag : float) (rV : Matrix3Xd) : Prop :=
  Exists (fun x => mag = fabs x) (coeffs rV) /\
  Forall (fun x => (fabs x <=? mag) = true) (coeffs rV).

(** A number (not NaN), and a key whose three coordinates are numbers.  A
    finite number, neither NaN nor infinite, is [is_finite] of the library. *)
Definition is_number (x : float) : bool := negb (is_nan x).
Definition key_defined (k : Vector3d) : bool :=
  is_number (v0 k) && is_number (v1 k) && is_number (v2 k).

(** A cloud whose coordinates are all numbers, and one whose coordinates are
    all zero. *)
Definition cloud_numbers (rV : Matrix3Xd) : bool :=
  forallb is_number (coeffs rV).
Definition all_zero (rV : Matrix3Xd) : bool :=
  forallb (fun x => x =? 0) (coeffs rV).

(** Modelled from the spec: the LP oracle [sdlp::linprog] is not part of the
    header.  The specification describes it as solving "minimize c^T x subject
    to Ax <= b" and returning "the optimal point x and the optimal objective
    value".  [dot4] is a product [a^T x] of that description. *)
Definition dot4 (a x : Vector4d) : float :=
  h0 a * h0 x + h1 a * h1 x + h2 a * h2 x + h3 a * h3 x.

(** Modelled from the spec: the constraint set [Ax <= b] of the LP oracle
    [sdlp::linprog], row by row. *)
Definition lp_feasible (A : MatrixX4d) (b : VectorXd) (x : Vector4d) : Prop :=
  Forall2 (fun row bi => (dot4 row x <=? bi) = true) A b.

(** Modelled from the spec: the LP oracle [sdlp::linprog] returns "the
    optimal objective value" of its problem.  The optimal value of a problem is
    determined by its objective and its constraint set: an oracle that returns
    it gives two systems with the same constraint set the same value. *)
Definition lp_value_determined
    (linprog : Vector4d -> MatrixX4d -> VectorXd -> float * Vector4d) : Prop :=
  forall c A b A' b',
    (forall x, lp_feasible A b x <-> lp_feasible A' b' x) ->
    (linprog c A b).1 = (linprog c A' b').1.

(** [lp_feasible] as a test. *)
Fixpoint lp_feasibleb (A : MatrixX4d) (b : VectorXd) (x : Vector4d) : bool :=
  match A, b with
  | [], [] => true
  | row :: A', bi :: b' => (dot4 row x <=? bi) && lp_feasibleb A' b' x
  | _, _ => false
  end.

(** The better of the best candidate so far and [p], by objective value. *)
Definition better (c : Vector4d) (best : option Vector4d) (p : Vector4d)
    : option Vector4d :=
  match best with
  | None => Some p
  | Some q => if dot4 c p <? dot4 c q then Some p else Some q
  end.

(** A stand-in for the LP oracle, used to run the functions on examples: it
    minimises the objective over a fixed list of candidate points and reports
    [+infinity] when none of them is feasible. *)
Definition candidate_linprog (candidates : list Vector4d)
    (c : Vector4d) (A : MatrixX4d) (b : VectorXd) : float * Vector4d :=
  match fold_left (better c) (List.filter (lp_feasibleb A b) candidates) None with
  | None => (infinity, V4 0 0 0 0)
  | Some p => (dot4 c p, p)
  end.

End Spec.

(** ** Notions used in the proofs *)
Module Invariants.
Import geo_utils.

(** The keys of a set are kept in strictly increasing order. *)
Fixpoint sorted (s : key_set) : Prop :=
  match s with
  | [] => True
  | a :: s' => Forall (fun b => filterLess a b = true) s' /\ sorted s'
  end.

(** The loop of [filterVs] read off the list of columns: the points it keeps,
    starting from the set [s]. *)
Fixpoint kept (res : float) (s : key_set) (pts : Matrix3Xd) : Matrix3Xd :=
  match pts with
  | [] => []
  | p :: rest =>
      if set_find (quantize res p) s then kept res s rest
      else p :: kept res (set_insert (quantize res p) s) rest
  end.

End Invariants.

(** ** Inputs and stand-in solvers for the examples *)
Module Examples.
Import geo_utils.

(** The cube [lo, hi]^3 as six half-spaces: [x <= hi], [-x <= -lo], and the
    same for [y] and [z]. *)
Definition cube (lo hi : float) : MatrixX4d :=
  [V4 1 0 0 (- hi); V4 (-1) 0 0 lo;
   V4 0 1 0 (- hi); V4 0 (-1) 0 lo;
   V4 0 0 1 (- hi); V4 0 0 (-1) lo].

(** Candidate points [(x, x, x, w)] for [Spec.candidate_linprog]. *)
Definition candidates : list Vector4d :=
  [V4 0.5 0.5 0.5 0.5; V4 0.75 0.75 0.75 0.25; V4 0.25 0.25 0.25 0.25;
   V4 1 1 1 0; V4 1.5 1.5 1.5 (-0.5)].

(** A hull solver for the six dual points of a cube, which span an
    octahedron: its eight facets, by the indices of their corners. *)
Definition octahedron_hull (pts : Matrix3Xd) (ccw useOriginalIndices : bool)
    (eps : float) : list nat :=
  [0; 2; 4;  2; 1; 4;  1; 3; 4;  3; 0; 4;
   2; 0; 5;  1; 2; 5;  3; 1; 5;  0; 3; 5]%nat.

(** The default tolerance [1.0e-6] of the header, as binary64 reads it. *)
Definition default_epsilon : float := 0x1.0c6f7a0b5ed8dp-20.

End Examples.

(** ** Facts about the order of binary64 numbers *)
Module FloatFacts.
Import FloatOrder.

(** The comparison of two finite numbers of one sign: by exponent, then by
    mantissa. *)
Ltac finite_cases e d m n :=
  destruct (Z.compare_spec e d); simpl;
  [ change (Pos.compare_cont Eq m n) with (Pos.compare m n);
    destruct (Pos.compare_spec m n); simpl | | ];
  (split; [first [discriminate | intros _; repeat split; lia]
          | intros (?&?&?); first [reflexivity | lia]]).

Ltac rank_cases f g :=
  destruct f as [[]|[]| |[] ?m ?e], g as [[]|[]| |[] ?n ?d]; simpl;
  try (split; [discriminate | intros (?&?&?); first [discriminate | lia]]);
  try (split; [intros _; repeat split; lia | reflexivity]);
  match goal with
  | |- context [Z.compare ?e ?d] =>
      match goal with
      | |- context [Pos.compare_cont Eq ?m ?n] => finite_cases e d m n
      end
  end.

Lemma SFltb_rank (f g : spec_float) :
  SFltb f g = true <->
  num f = true /\ num g = true /\ lex_lt (rank f) (rank g).
Proof. unfold SFltb, lex_lt. rank_cases f g. Qed.

Lemma SFeqb_rank (f g : spec_float) :
  SFeqb f g = true <->
  num f = true /\ num g = true /\ lex_eq (rank f) (rank g).
Proof. unfold SFeqb, lex_eq. rank_cases f g. Qed.

Lemma SFleb_rank (f g : spec_float) :
  SFleb f g = true <->
  num f = true /\ num g = true /\ lex_le (rank f) (rank g).
Proof. unfold SFleb, lex_le, lex_lt, lex_eq. rank_cases f g. Qed.

Lemma rank_wf_rank (f : spec_float) : rank_wf (rank f).
Proof. unfold rank_wf. destruct f as [[]|[]| |[] m e]; simpl; lia. Qed.

Lemma rank_SFabs (f : spec_float) : rank (SFabs f) = lex_abs (rank f).
Proof. destruct f as [[]|[]| |[] m e]; try reflexivity. 
  unfold lex_abs, lex_opp; simpl. rewrite Z.opp_involutive. reflexivity. Qed.

Lemma rank_SFopp (f : spec_float) : rank (SFopp f) = lex_opp (rank f).
Proof. destruct f as [[]|[]| |[] m e]; try reflexivity.
  unfold lex_opp; simpl. rewrite Z.opp_involutive. reflexivity. Qed.

Lemma num_SFabs (f : spec_float) : num (SFabs f) = num f.
Proof. destruct f; reflexivity. Qed.

Lemma num_SFopp (f : spec_float) : num (SFopp f) = num f.
Proof. destruct f; reflexivity. Qed.

(** The same facts for the primitive operations. *)
Lemma ltb_rank (x y : float) :
  (x <? y) = true <->
  fnum x = true /\ fnum y = true /\ lex_lt (frank x) (frank y).
Proof. rewrite FloatAxioms.ltb_spec. apply SFltb_rank. Qed.

Lemma eqb_rank (x y : float) :
  (x =? y) = true <->
  fnum x = true /\ fnum y = true /\ lex_eq (frank x) (frank y).
Proof. rewrite FloatAxioms.eqb_spec. apply SFeqb_rank. Qed.

Lemma leb_rank (x y : float) :
  (x <=? y) = true <->
  fnum x = true /\ fnum y = true /\ lex_le (frank x) (frank y).
Proof. rewrite FloatAxioms.leb_spec. apply SFleb_rank. Qed.

Lemma ltb_rank_false (x y : float) :
  (x <? y) = false <->
  ~ (fnum x = true /\ fnum y = true /\ lex_lt (frank x) (frank y)).
Proof. rewrite <- ltb_rank. destruct (x <? y); split; congruence. Qed.

Lemma eqb_rank_false (x y : float) :
  (x =? y) = false <->
  ~ (fnum x = true /\ fnum y = true /\ lex_eq (frank x) (frank y)).
Proof. rewrite <- eqb_rank. destruct (x =? y); split; congruence. Qed.

Lemma leb_rank_false (x y : float) :
  (x <=? y) = false <->
  ~ (fnum x = true /\ fnum y = true /\ lex_le (frank x) (frank y)).
Proof. rewrite <- leb_rank. destruct (x <=? y); split; congruence. Qed.

Lemma frank_wf (x : float) : rank_wf (frank x).
Proof. apply rank_wf_rank. Qed.

Lemma frank_abs (x : float) : frank (abs x) = lex_abs (frank x).
Proof. unfold frank. rewrite abs_spec. apply rank_SFabs. Qed.

Lemma frank_opp (x : float) : frank (- x) = lex_opp (frank x).
Proof. unfold frank. rewrite opp_spec. apply rank_SFopp. Qed.

Lemma fnum_abs (x : float) : fnum (abs x) = fnum x.
Proof. unfold fnum. rewrite abs_spec. apply num_SFabs. Qed.

Lemma fnum_opp (x : float) : fnum (- x) = fnum x.
Proof. unfold fnum. rewrite opp_spec. apply num_SFopp. Qed.

Lemma is_nan_fnum (x : float) : is_nan x = negb (fnum x).
Proof.
  unfold is_nan. destruct (x =? x) eqn:E.
  - apply eqb_rank in E as (-> & _). reflexivity.
  - apply eqb_rank_false in E. destruct (fnum x); [|reflexivity].
    exfalso. apply E. unfold lex_eq. auto.
Qed.

Lemma frank_0 : frank 0 = (0, 0, 0)%Z.
Proof. reflexivity. Qed.

Lemma fnum_0 : fnum 0 = true.
Proof. reflexivity. Qed.

(** [float_order] turns the comparisons of a goal into facts about ranks and
    leaves them to [lia]. *)
Ltac rank_intro :=
  repeat match goal with
  | H : (_ <? _) = true |- _ => apply ltb_rank in H
  | H : (_ <? _) = false |- _ => apply ltb_rank_false in H
  | H : (_ =? _) = true |- _ => apply eqb_rank in H
  | H : (_ =? _) = false |- _ => apply eqb_rank_false in H
  | H : (_ <=? _) = true |- _ => apply leb_rank in H
  | H : (_ <=? _) = false |- _ => apply leb_rank_false in H
  | |- (_ <? _) = true => apply ltb_rank
  | |- (_ <? _) = false => apply ltb_rank_false
  | |- (_ =? _) = true => apply eqb_rank
  | |- (_ =? _) = false => apply eqb_rank_false
  | |- (_ <=? _) = true => apply leb_rank
  | |- (_ <=? _) = false => apply leb_rank_false
  end;
  rewrite ?is_nan_fnum, ?frank_abs, ?frank_opp, ?fnum_abs, ?fnum_opp,
    ?frank_0, ?fnum_0 in *.

Ltac rank_elim :=
  repeat match goal with
  | |- context [frank ?x] =>
      let W := fresh "W" in
      pose proof (frank_wf x) as W; revert W;
      generalize (frank x); intros [[? ?] ?] W
  | |- context [fnum ?x] => generalize (fnum x); intros []
  end.

Ltac float_order :=
  rank_intro;
  repeat match goal with
  | H : ?P |- _ => match type of P with Prop => revert H end
  end;
  rank_elim;
  unfold rank_wf, lex_le, lex_lt, lex_eq, lex_abs, lex_opp; simpl;
  repeat match goal with
  | |- context [(?a <? 0)%Z] => destruct (Z.ltb_spec a 0)
  end; simpl;
  intuition (try discriminate; try lia).

Lemma ltb_irrefl (x : float) : (x <? x) = false.
Proof. float_order. Qed.

Lemma ltb_trans (x y z : float) :
  (x <? y) = true -> (y <? z) = true -> (x <? z) = true.
Proof. intros. float_order. Qed.

Lemma ltb_asym (x y : float) : (x <? y) = true -> (y <? x) = false.
Proof. intros. float_order. Qed.

Lemma eqb_sym (x y : float) : (x =? y) = (y =? x).
Proof. 
  destruct (y =? x) eqn:E; float_order.
Qed.

Lemma eqb_trans (x y z : float) :
  (x =? y) = true -> (y =? z) = true -> (x =? z) = true.
Proof. intros. float_order. Qed.

Lemma eqb_ltb_l (x y z : float) :
  (x =? y) = true -> (x <? z) = (y <? z).
Proof. intros. destruct (y <? z) eqn:E; float_order. Qed.

Lemma eqb_ltb_r (x y z : float) :
  (x =? y) = true -> (z <? x) = (z <? y).
Proof. intros. destruct (z <? y) eqn:E; float_order. Qed.

Lemma eqb_eqb_l (x y z : float) :
  (x =? y) = true -> (x =? z) = (y =? z).
Proof. intros. destruct (y =? z) eqn:E; float_order. Qed.

Lemma trichotomy (x y : float) :
  is_nan x = false -> is_nan y = false ->
  (x <? y) = false -> (y <? x) = false -> (x =? y) = true.
Proof. intros. float_order. Qed.

Lemma eqb_not_ltb (x y : float) : (x =? y) = true -> (x <? y) = false.
Proof. intros. float_order. Qed.

Lemma eqb_not_gtb (x y : float) : (x =? y) = true -> (y <? x) = false.
Proof. intros. float_order. Qed.

Lemma ltb_number (x y : float) :
  (x <? y) = true -> is_nan x = false /\ is_nan y = false.
Proof. intros. float_order. Qed.

Lemma eqb_number (x y : float) :
  (x =? y) = true -> is_nan x = false /\ is_nan y = false.
Proof. intros. float_order. Qed.

Lemma leb_std_max_l (a b : float) :
  is_nan a = false -> is_nan b = false -> (a <=? geo_utils.std_max a b) = true.
Proof. intros. unfold geo_utils.std_max. destruct (a <? b) eqn:E; float_order. Qed.

Lemma leb_std_max_r (a b : float) :
  is_nan a = false -> is_nan b = false -> (b <=? geo_utils.std_max a b) = true.
Proof. intros. unfold geo_utils.std_max. destruct (a <? b) eqn:E; float_order. Qed.

Lemma std_min_leb_l (a b : float) :
  is_nan a = false -> is_nan b = false -> (geo_utils.std_min a b <=? a) = true.
Proof. intros. unfold geo_utils.std_min. destruct (b <? a) eqn:E; float_order. Qed.

Lemma std_min_leb_r (a b : float) :
  is_nan a = false -> is_nan b = false -> (geo_utils.std_min a b <=? b) = true.
Proof. intros. unfold geo_utils.std_min. destruct (b <? a) eqn:E; float_order. Qed.

Lemma leb_trans (x y z : float) :
  (x <=? y) = true -> (y <=? z) = true -> (x <=? z) = true.
Proof. intros. float_order. Qed.

Lemma leb_refl (x : float) : is_nan x = false -> (x <=? x) = true.
Proof. intros. float_order. Qed.

Lemma std_max_cases (a b : float) :
  geo_utils.std_max a b = a \/ geo_utils.std_max a b = b.
Proof. unfold geo_utils.std_max. destruct (a <? b); auto. Qed.

Lemma std_min_cases (a b : float) :
  geo_utils.std_min a b = a \/ geo_utils.std_min a b = b.
Proof. unfold geo_utils.std_min. destruct (b <? a); auto. Qed.

(** A number between [lo] and [hi] is, in absolute value, at most the larger
    of [|hi|] and [|lo|]. *)
Lemma abs_leb_mag (x lo hi : float) :
  (lo <=? x) = true -> (x <=? hi) = true ->
  (abs x <=? geo_utils.filterVs_mag hi lo) = true.
Proof.
  intros. unfold geo_utils.filterVs_mag, geo_utils.std_max, geo_utils.fabs.
  destruct (abs hi <? abs lo) eqn:E; float_order.
Qed.

(** A value below a threshold is a number; a non-negative value is not below
    the opposite of a non-negative tolerance. *)
Lemma leb_0_not_ltb_opp (v eps : float) :
  (0 <=? v) = true -> (0 <=? eps) = true -> (v <? - eps) = false.
Proof. intros. float_order. Qed.

End FloatFacts.

(** ** Divisions by zero and NaN *)
Module FloatSpecial.
Import FloatOrder FloatFacts.

Lemma Prim2SF_nan (x : float) : Prim2SF x = S754_nan -> x = nan.
Proof. intros H. apply Prim2SF_inj. rewrite H. reflexivity. Qed.

Lemma Prim2SF_infinity (x : float) :
  Prim2SF x = S754_infinity false -> x = infinity.
Proof. intros H. apply Prim2SF_inj. rewrite H. reflexivity. Qed.

Lemma eqb_0_zero (x : float) :
  (x =? 0) = true -> exists s, Prim2SF x = S754_zero s.
Proof.
  rewrite FloatAxioms.eqb_spec. change (Prim2SF 0) with (S754_zero false).
  destruct (Prim2SF x) as [s|s| |s m e]; try discriminate; eauto.
  - destruct s; discriminate.
  - destruct s; discriminate.
Qed.

Lemma abs_of_zero (x : float) : (x =? 0) = true -> abs x = 0.
Proof.
  intros [s H]%eqb_0_zero. apply Prim2SF_inj.
  rewrite abs_spec, H. reflexivity.
Qed.

(** A quotient by zero is NaN or infinite. *)
Lemma div_by_zero (x n : float) :
  (n =? 0) = true ->
  Prim2SF (x / n) = S754_nan \/ exists s, Prim2SF (x / n) = S754_infinity s.
Proof.
  intros [s H]%eqb_0_zero. rewrite div_spec, H. unfold SF64div.
  destruct (Prim2SF x) as [sx|sx| |sx m e]; simpl; eauto.
Qed.

Lemma not_finite_nan (y : float) : Prim2SF y = S754_nan -> is_finite y = false.
Proof. intros ->%Prim2SF_nan. reflexivity. Qed.

Lemma not_finite_infinity (y : float) (s : bool) :
  Prim2SF y = S754_infinity s -> is_finite y = false.
Proof.
  intros H. unfold is_finite, is_infinity.
  rewrite FloatAxioms.eqb_spec, abs_spec, H. simpl.
  by rewrite orb_true_r.
Qed.

Lemma div_by_zero_not_finite (x n : float) :
  (n =? 0) = true -> is_finite (x / n) = false.
Proof.
  intros H. destruct (div_by_zero x n H) as [E | [s E]].
  - apply not_finite_nan, E.
  - apply (not_finite_infinity _ s), E.
Qed.

(** [|eps| / 0] is NaN or plus infinity, never minus infinity. *)
Lemma fabs_div_0 (eps : float) :
  geo_utils.fabs eps / 0 = nan \/ geo_utils.fabs eps / 0 = infinity.
Proof.
  unfold geo_utils.fabs.
  assert (H : Prim2SF (abs eps / 0) = S754_nan \/
              Prim2SF (abs eps / 0) = S754_infinity false).
  { rewrite div_spec, abs_spec. change (Prim2SF 0) with (S754_zero false).
    unfold SF64div. destruct (Prim2SF eps) as [sx|sx| |sx m e]; simpl; auto. }
  destruct H as [H | H]; [left; apply Prim2SF_nan, H | right; apply Prim2SF_infinity, H].
Qed.

(** With [mag = 0] the resolution is NaN, whatever the tolerance. *)
Lemma filterVs_res_0 (eps : float) : geo_utils.filterVs_res 0 eps = nan.
Proof.
  unfold geo_utils.filterVs_res.
  destruct (fabs_div_0 eps) as [-> | ->]; reflexivity.
Qed.

Lemma div_nan (x : float) : x / nan = nan.
Proof.
  apply Prim2SF_nan. rewrite div_spec. change (Prim2SF nan) with S754_nan.
  unfold SF64div. destruct (Prim2SF x); reflexivity.
Qed.

Lemma round_nan : geo_utils.round nan = nan.
Proof. reflexivity. Qed.

(** [std::round] on a few values: halfway cases go away from zero, the sign
    of a zero result is that of the argument, large numbers are integers
    already. *)
Example round_values :
  geo_utils.round 2.5 = 3 /\ geo_utils.round (-2.5) = -3 /\
  geo_utils.round 0.5 = 1 /\ geo_utils.round 0x1.fffffffffffffp-2 = 0 /\
  geo_utils.round (-0.25) = -0 /\ geo_utils.round 0x1p60 = 0x1p60 /\
  geo_utils.round 4503599627370495.5 = 4503599627370496 /\
  geo_utils.round infinity = infinity.
Proof. repeat split; reflexivity. Qed.

Lemma quantize_nan (p : geo_utils.Vector3d) :
  geo_utils.quantize nan p = geo_utils.V3 nan nan nan.
Proof.
  unfold geo_utils.quantize, geo_utils.v3_div, geo_utils.v3_round; simpl.
  rewrite !div_nan, round_nan. reflexivity.
Qed.

End FloatSpecial.

(** ** [filterLess] as an order on keys *)
Module KeyOrder.
Import geo_utils Spec FloatFacts.

Lemma filterLess_true (a b : Vector3d) :
  filterLess a b = true <->
  (v0 a <? v0 b) = true \/
  ((v0 a =? v0 b) = true /\
   ((v1 a <? v1 b) = true \/
    ((v1 a =? v1 b) = true /\ (v2 a <? v2 b) = true))).
Proof.
  unfold filterLess.
  rewrite orb_true_iff, andb_true_iff, orb_true_iff, andb_true_iff.
  reflexivity.
Qed.

Lemma filterLess_irrefl (k : Vector3d) : filterLess k k = false.
Proof.
  unfold filterLess. rewrite !ltb_irrefl.
  destruct (v0 k =? v0 k), (v1 k =? v1 k); reflexivity.
Qed.

Lemma ltb_eqb_trans (x y z : float) :
  (x <? y) = true -> (y =? z) = true -> (x <? z) = true.
Proof. intros H E. rewrite <- (eqb_ltb_r _ _ x E). exact H. Qed.

Lemma eqb_ltb_trans (x y z : float) :
  (x =? y) = true -> (y <? z) = true -> (x <? z) = true.
Proof. intros E H. rewrite (eqb_ltb_l _ _ z E). exact H. Qed.

Create HintDb key_order.
#[local] Hint Resolve ltb_trans eqb_trans ltb_eqb_trans eqb_ltb_trans : key_order.

Lemma filterLess_trans (a b c : Vector3d) :
  filterLess a b = true -> filterLess b c = true -> filterLess a c = true.
Proof.
  rewrite !filterLess_true.
  intros [?|[? [?|[? ?]]]] [?|[? [?|[? ?]]]];
    first [ left; solve [eauto with key_order]
          | right; split; [solve [eauto with key_order]|];
            first [ left; solve [eauto with key_order]
                  | right; split; solve [eauto with key_order] ] ].
Qed.

Lemma filterLess_asym (a b : Vector3d) :
  filterLess a b = true -> filterLess b a = false.
Proof.
  intros H. destruct (filterLess b a) eqn:E; [|reflexivity].
  pose proof (filterLess_trans _ _ _ H E) as F.
  rewrite filterLess_irrefl in F. discriminate.
Qed.

Lemma same_key_refl (k : Vector3d) : same_key k k = true.
Proof. unfold same_key. rewrite filterLess_irrefl. reflexivity. Qed.

Lemma same_key_sym (a b : Vector3d) : same_key a b = same_key b a.
Proof. unfold same_key. apply andb_comm. Qed.

(** On keys whose coordinates are numbers, the keys the set does not tell
    apart are the keys that are equal axis by axis. *)
Lemma key_defined_number (k : Vector3d) :
  Spec.key_defined k = true ->
  is_nan (v0 k) = false /\ is_nan (v1 k) = false /\ is_nan (v2 k) = false.
Proof.
  unfold Spec.key_defined, Spec.is_number.
  rewrite !andb_true_iff, !negb_true_iff. tauto.
Qed.

Lemma key_eqb_same_key (a b : Vector3d) :
  Spec.key_eqb a b = true -> same_key a b = true.
Proof.
  unfold Spec.key_eqb, same_key, filterLess.
  intros [[E0 E1]%andb_true_iff E2]%andb_true_iff.
  rewrite (eqb_not_ltb _ _ E0), (eqb_not_ltb _ _ E1), (eqb_not_ltb _ _ E2).
  rewrite (eqb_not_gtb _ _ E0), (eqb_not_gtb _ _ E1), (eqb_not_gtb _ _ E2).
  rewrite (eqb_sym (v0 b)), (eqb_sym (v1 b)), E0, E1. reflexivity.
Qed.

Lemma same_key_key_eqb (a b : Vector3d) :
  Spec.key_defined a = true -> Spec.key_defined b = true ->
  same_key a b = true -> Spec.key_eqb a b = true.
Proof.
  intros (A0 & A1 & A2)%key_defined_number (B0 & B1 & B2)%key_defined_number.
  unfold same_key, filterLess, Spec.key_eqb.
  intros [H H']%andb_true_iff.
  apply negb_true_iff, orb_false_iff in H as [L0 R0].
  apply negb_true_iff, orb_false_iff in H' as [L0' R0'].
  pose proof (trichotomy _ _ A0 B0 L0 L0') as E0.
  rewrite E0 in *. rewrite (eqb_sym (v0 b)), E0 in R0'. simpl in *.
  apply orb_false_iff in R0 as [L1 R1], R0' as [L1' R1'].
  pose proof (trichotomy _ _ A1 B1 L1 L1') as E1.
  rewrite E1 in *. rewrite (eqb_sym (v1 b)), E1 in R1'. simpl in *.
  rewrite (trichotomy _ _ A2 B2 R1 R1'). reflexivity.
Qed.

Lemma key_eqb_refl (k : Vector3d) :
  Spec.key_defined k = true -> Spec.key_eqb k k = true.
Proof. intros H. apply same_key_key_eqb; auto using same_key_refl. Qed.

Lemma key_eqb_sym (a b : Vector3d) : Spec.key_eqb a b = Spec.key_eqb b a.
Proof.
  unfold Spec.key_eqb.
  rewrite (eqb_sym (v0 a)), (eqb_sym (v1 a)), (eqb_sym (v2 a)). reflexivity.
Qed.

Lemma key_eqb_trans (a b c : Vector3d) :
  Spec.key_eqb a b = true -> Spec.key_eqb b c = true -> Spec.key_eqb a c = true.
Proof.
  unfold Spec.key_eqb. rewrite !andb_true_iff.
  intros [[? ?] ?] [[? ?] ?]. repeat split; eauto using eqb_trans.
Qed.

End KeyOrder.

(** ** The set model and the loop of [filterVs] *)
Module FilterFacts.
Import geo_utils Spec Invariants FloatFacts KeyOrder.

Lemma sorted_cons_inv (a : Vector3d) (s : key_set) :
  sorted (a :: s) -> Forall (fun b => filterLess a b = true) s /\ sorted s.
Proof. simpl. tauto. Qed.

Lemma lower_bound_Some (k e : Vector3d) (s : key_set) :
  lower_bound k s = Some e -> e ∈ s /\ filterLess e k = false.
Proof.
  induction s as [|a s IH]; simpl; [discriminate|].
  destruct (filterLess a k) eqn:E.
  - intros H. destruct (IH H). split; [by right | done].
  - intros [= <-]. split; [by left | done].
Qed.

Lemma set_find_true (k : Vector3d) (s : key_set) :
  set_find k s = true -> exists e, e ∈ s /\ same_key k e = true.
Proof.
  unfold set_find. destruct (lower_bound k s) as [e|] eqn:E; [|discriminate].
  apply lower_bound_Some in E as [Hin Hle]. intros H. exists e. split; [done|].
  unfold same_key. rewrite Hle, H. reflexivity.
Qed.

Lemma same_key_inv (a b : Vector3d) :
  same_key a b = true -> filterLess a b = false /\ filterLess b a = false.
Proof.
  unfold same_key. intros [H1 H2]%andb_true_iff.
  by apply negb_true_iff in H1, H2.
Qed.

Lemma same_key_false (a b : Vector3d) :
  same_key a b = false -> filterLess a b = true \/ filterLess b a = true.
Proof.
  unfold same_key. destruct (filterLess a b), (filterLess b a); simpl; auto.
Qed.

Lemma set_find_complete (k e : Vector3d) (s : key_set) :
  sorted s -> e ∈ s -> same_key k e = true -> set_find k s = true.
Proof.
  intros Hs Hin [Hke Hek]%same_key_inv. unfold set_find.
  induction s as [|a s IH]; [by apply elem_of_nil in Hin|].
  apply sorted_cons_inv in Hs as [Ha Hs]. simpl.
  apply elem_of_cons in Hin as [<- | Hin].
  - rewrite Hek, Hke. reflexivity.
  - destruct (filterLess a k) eqn:Eak; [by apply IH|].
    destruct (filterLess k a) eqn:Eka; [|reflexivity].
    rewrite Forall_forall in Ha.
    rewrite (filterLess_trans _ _ _ Eka (Ha _ Hin)) in Hke. discriminate.
Qed.

(** [find] succeeds exactly when the set holds a key that it does not tell
    apart from the one looked up. *)
Lemma set_find_iff (k : Vector3d) (s : key_set) :
  sorted s ->
  set_find k s = true <-> exists e, e ∈ s /\ same_key k e = true.
Proof.
  intros Hs. split; [apply set_find_true|].
  intros (e & Hin & He). by apply (set_find_complete k e).
Qed.

Lemma set_insert_after_spec (k : Vector3d) (s : key_set) : forall j,
  filterLess j k = true ->
  (forall e, e ∈ s -> same_key k e = false) ->
  Forall (fun e => filterLess j e = true) s -> sorted s ->
  sorted (set_insert_after j k s) /\
  Forall (fun e => filterLess j e = true) (set_insert_after j k s) /\
  (forall x, x ∈ set_insert_after j k s <-> x = k \/ x ∈ s).
Proof.
  induction s as [|e s IH]; intros j Hjk Hnew Hj Hs; simpl.
  - rewrite Hjk. simpl. split_and!; auto.
    intros x. rewrite list_elem_of_singleton. rewrite elem_of_nil. tauto.
  - apply sorted_cons_inv in Hs as [He Hs].
    apply Forall_cons in Hj as [Hje Hj].
    destruct (filterLess k e) eqn:Eke.
    + rewrite Hjk. simpl. split_and!; auto.
      * constructor; [done|]. eapply Forall_impl; [exact He|].
        intros x Hx. by apply (filterLess_trans _ e).
      * intros x. rewrite !elem_of_cons. tauto.
    + assert (Hek : filterLess e k = true).
      { destruct (same_key_false k e) as [H|H]; [apply Hnew; by left | congruence | done]. }
      destruct (IH e Hek) as (IH1 & IH2 & IH3); auto.
      { intros x Hx. apply Hnew. by right. }
      simpl. split_and!; auto.
      * constructor; [done|]. eapply Forall_impl; [exact IH2|].
        intros x Hx. by apply (filterLess_trans _ e).
      * intros x. rewrite !elem_of_cons, IH3. tauto.
Qed.

(** Inserting a key that the set does not hold keeps the set ordered and adds
    that key and nothing else. *)
Lemma set_insert_spec (k : Vector3d) (s : key_set) :
  sorted s -> (forall e, e ∈ s -> same_key k e = false) ->
  sorted (set_insert k s) /\
  (forall x, x ∈ set_insert k s <-> x = k \/ x ∈ s).
Proof.
  intros Hs Hnew. destruct s as [|e s]; simpl.
  - split_and!; auto. intros x. rewrite list_elem_of_singleton, elem_of_nil. tauto.
  - apply sorted_cons_inv in Hs as [He Hs].
    destruct (filterLess k e) eqn:Eke.
    + simpl. split_and!; auto.
      * constructor; [done|]. eapply Forall_impl; [exact He|].
        intros x Hx. by apply (filterLess_trans _ e).
      * intros x. rewrite !elem_of_cons. tauto.
    + assert (Hek : filterLess e k = true).
      { destruct (same_key_false k e) as [H|H]; [apply Hnew; by left | congruence | done]. }
      destruct (set_insert_after_spec k s e Hek) as (IH1 & IH2 & IH3); auto.
      { intros x Hx. apply Hnew. by right. }
      simpl. split_and!; auto.
      intros x. rewrite !elem_of_cons, IH3. tauto.
Qed.

Lemma filterVs_step_at (res : float) (rV : Matrix3Xd) (st : filter_state)
    (i : nat) (p : Vector3d) :
  rV !! i = Some p ->
  filterVs_step res rV st i =
  if set_find (quantize res p) (filter st) then st
  else FilterState (set_insert (quantize res p) (filter st))
                   (<[offset st := p]> (fV st)) (S (offset st)).
Proof. intros H. unfold filterVs_step. rewrite H. reflexivity. Qed.

(** The loop over the column indices computes [kept]: the buffer [fV] holds
    the points kept so far, followed by columns of [rV] not yet overwritten. *)
Lemma filterVs_loop_from (res : float) (rV : Matrix3Xd) :
  forall (r pre out : Matrix3Xd) (s : key_set),
  rV = pre ++ r -> length out <= length pre ->
  let st := fold_left (filterVs_step res rV) (seq (length pre) (length r))
              (FilterState s (out ++ drop (length out) rV) (length out)) in
  take (offset st) (fV st) = out ++ kept res s r.
Proof.
  induction r as [|p r IH]; intros pre out s HrV Hlen; simpl.
  - rewrite take_app_length, app_nil_r. reflexivity.
  - assert (Hp : rV !! length pre = Some p).
    { rewrite HrV. apply list_lookup_middle. reflexivity. }
    rewrite (filterVs_step_at _ _ _ _ _ Hp). simpl.
    assert (HrV' : rV = (pre ++ [p]) ++ r) by (rewrite <- app_assoc; exact HrV).
    assert (HS : S (length pre) = length (pre ++ [p])).
    { rewrite length_app. simpl. lia. }
    destruct (set_find (quantize res p) s).
    + rewrite HS. apply IH; [exact HrV'|]. rewrite length_app. simpl. lia.
    + assert (Hx : exists x, rV !! length out = Some x).
      { apply lookup_lt_is_Some_2. rewrite HrV, length_app. simpl. lia. }
      destruct Hx as [x Hx].
      replace (<[length out:=p]> (out ++ drop (length out) rV))
        with ((out ++ [p]) ++ drop (length (out ++ [p])) rV).
      2:{ rewrite (insert_app_r_alt out _ (length out)) by lia.
          rewrite Nat.sub_diag, (drop_S _ _ _ Hx). simpl.
          rewrite <- app_assoc, length_app. simpl.
          replace (length out + 1)%nat with (S (length out)) by lia. reflexivity. }
      replace (S (length out)) with (length (out ++ [p])).
      2:{ rewrite length_app. simpl. lia. }
      rewrite HS, IH; [|exact HrV'|].
      * rewrite <- app_assoc. reflexivity.
      * rewrite !length_app. simpl. lia.
Qed.

Lemma filterVs_loop_kept (res : float) (rV : Matrix3Xd) :
  take (offset (filterVs_loop res rV)) (fV (filterVs_loop res rV))
  = kept res [] rV.
Proof.
  unfold filterVs_loop.
  exact (filterVs_loop_from res rV rV [] [] [] eq_refl (le_n 0)).
Qed.

End FilterFacts.

(** ** What the loop keeps *)
Module KeptFacts.
Import geo_utils Spec Invariants FloatFacts KeyOrder FilterFacts.

Lemma set_find_singleton (k : Vector3d) : set_find k [k] = true.
Proof. unfold set_find. simpl. rewrite filterLess_irrefl. simpl. by rewrite filterLess_irrefl. Qed.

(** Points that all have the key the set holds are all dropped. *)
Lemma kept_same_key (res : float) (k0 : Vector3d) (pts : Matrix3Xd) :
  Forall (fun p => quantize res p = k0) pts -> kept res [k0] pts = [].
Proof.
  induction 1 as [|p pts Hp _ IH]; simpl; [reflexivity|].
  rewrite Hp, set_find_singleton. exact IH.
Qed.

Lemma set_find_false (k : Vector3d) (s : key_set) :
  sorted s -> set_find k s = false -> forall e, e ∈ s -> same_key k e = false.
Proof.
  intros Hs Hf e He. destruct (same_key k e) eqn:E; [|reflexivity].
  rewrite (set_find_complete k e s Hs He E) in Hf. discriminate.
Qed.

(** Points whose keys differ from one another and from the keys of the set
    are all kept. *)
Lemma kept_distinct (res : float) (pts : Matrix3Xd) : forall s : key_set,
  sorted s ->
  (forall p e, p ∈ pts -> e ∈ s -> same_key (quantize res p) e = false) ->
  pairwise_distinct same_key (map (quantize res) pts) = true ->
  kept res s pts = pts.
Proof.
  induction pts as [|p pts IH]; intros s Hs Hnew Hd; simpl; [reflexivity|].
  simpl in Hd. apply andb_true_iff in Hd as [Hp Hd].
  assert (Hps : forall e, e ∈ s -> same_key (quantize res p) e = false).
  { intros e He. apply Hnew; [by left | done]. }
  destruct (set_find (quantize res p) s) eqn:Ef.
  { apply set_find_true in Ef as (e & He & Ee). rewrite (Hps e He) in Ee. discriminate. }
  destruct (set_insert_spec _ _ Hs Hps) as [Hs' Hin'].
  f_equal. apply IH; [exact Hs'| |exact Hd].
  intros q e Hq [-> | He]%Hin'.
  - rewrite forallb_forall in Hp.
    rewrite same_key_sym. apply negb_true_iff, Hp.
    apply in_map, list_elem_of_In, Hq.
  - apply Hnew; [by right | done].
Qed.

(** Among keys that are numbers, keys that differ as numbers are keys the set
    tells apart. *)
Lemma pairwise_distinct_numbers (ks : list Vector3d) :
  forallb key_defined ks = true ->
  pairwise_distinct key_eqb ks = true ->
  pairwise_distinct same_key ks = true.
Proof.
  induction ks as [|k ks IH]; simpl; [reflexivity|].
  intros [Hk Hks]%andb_true_iff [Hd Hds]%andb_true_iff.
  rewrite IH by done. rewrite andb_true_r.
  rewrite forallb_forall in Hd, Hks. apply forallb_forall. intros k' Hk'.
  specialize (Hd k' Hk'). specialize (Hks k' Hk').
  apply negb_true_iff in Hd. apply negb_true_iff.
  destruct (same_key k k') eqn:E; [|reflexivity].
  by rewrite (same_key_key_eqb _ _ Hk Hks E) in Hd.
Qed.

(** With keys that are numbers, the loop keeps what the specification
    describes, when the set holds one representative of every key met. *)
Lemma kept_first_of_each_key (res : float) (pts : Matrix3Xd) :
  forall (s : key_set) (earlier : list Vector3d),
  sorted s ->
  (forall e, e ∈ s -> e ∈ earlier) ->
  (forall k, k ∈ earlier -> exists e, e ∈ s /\ key_eqb e k = true) ->
  Forall (fun k => key_defined k = true) earlier ->
  Forall (fun p => key_defined (quantize res p) = true) pts ->
  kept res s pts = first_of_each_key (quantize res) earlier pts.
Proof.
  induction pts as [|p pts IH]; intros s earlier Hs Hsub Hrep Hdef Hpts;
    simpl; [reflexivity|].
  apply Forall_cons in Hpts as [Hq Hpts].
  set (q := quantize res p) in *.
  assert (Hdef' : Forall (fun k => key_defined k = true) (q :: earlier))
    by (by constructor).
  destruct (set_find q s) eqn:Ef.
  - apply set_find_true in Ef as (e & He & Ee).
    assert (Heq : key_eqb q e = true).
    { apply same_key_key_eqb; [done| |done].
      rewrite Forall_forall in Hdef. apply Hdef, Hsub, He. }
    assert (Hex : existsb (key_eqb q) earlier = true).
    { apply existsb_exists. exists e. split; [|done].
      apply list_elem_of_In, Hsub, He. }
    rewrite Hex. apply IH; auto.
    + intros e' He'. right. by apply Hsub.
    + intros k [-> | Hk]%elem_of_cons; [|by apply Hrep].
      exists e. split; [done|]. by rewrite key_eqb_sym.
  - pose proof (set_find_false _ _ Hs Ef) as Hnew.
    destruct (set_insert_spec _ _ Hs Hnew) as [Hs' Hin'].
    assert (Hex : existsb (key_eqb q) earlier = false).
    { destruct (existsb (key_eqb q) earlier) eqn:Ex; [|reflexivity].
      apply existsb_exists in Ex as (k & Hk%list_elem_of_In & Ek).
      destruct (Hrep k Hk) as (e & He & Ee).
      assert (Eqe : key_eqb q e = true).
      { apply (key_eqb_trans _ k); [done|]. by rewrite key_eqb_sym. }
      specialize (Hnew e He).
      rewrite (key_eqb_same_key _ _ Eqe) in Hnew. discriminate. }
    rewrite Hex. f_equal. apply IH; auto.
    + intros e [-> | He]%Hin'; [by left | right; by apply Hsub].
    + intros k [-> | Hk]%elem_of_cons.
      * exists q. split; [apply Hin'; by left | by apply key_eqb_refl].
      * destruct (Hrep k Hk) as (e & He & Ee). exists e.
        split; [apply Hin'; by right | done].
Qed.

(** *** The scale [mag] *)

Lemma fold_max_elem (cs : list float) : forall c,
  fold_left std_max cs c ∈ c :: cs.
Proof.
  induction cs as [|a cs IH]; intros c; simpl; [by left|].
  specialize (IH (std_max c a)). apply elem_of_cons in IH as [-> | IH].
  - destruct (std_max_cases c a) as [-> | ->]; [by left | right; by left].
  - right. by right.
Qed.

Lemma fold_min_elem (cs : list float) : forall c,
  fold_left std_min cs c ∈ c :: cs.
Proof.
  induction cs as [|a cs IH]; intros c; simpl; [by left|].
  specialize (IH (std_min c a)). apply elem_of_cons in IH as [-> | IH].
  - destruct (std_min_cases c a) as [-> | ->]; [by left | right; by left].
  - right. by right.
Qed.

Lemma fold_max_upper (cs : list float) : forall c,
  is_nan c = false -> Forall (fun x => is_nan x = false) cs ->
  Forall (fun x => (x <=? fold_left std_max cs c) = true) (c :: cs).
Proof.
  induction cs as [|a cs IH]; intros c Hc Hcs; simpl.
  - constructor; [by apply leb_refl | constructor].
  - apply Forall_cons in Hcs as [Ha Hcs].
    assert (Hm : is_nan (std_max c a) = false).
    { destruct (std_max_cases c a) as [-> | ->]; done. }
    specialize (IH _ Hm Hcs). apply Forall_cons in IH as [Hm' IH].
    constructor; [|constructor; [|exact IH]].
    + eapply leb_trans; [|exact Hm']. by apply leb_std_max_l.
    + eapply leb_trans; [|exact Hm']. by apply leb_std_max_r.
Qed.

Lemma fold_min_lower (cs : list float) : forall c,
  is_nan c = false -> Forall (fun x => is_nan x = false) cs ->
  Forall (fun x => (fold_left std_min cs c <=? x) = true) (c :: cs).
Proof.
  induction cs as [|a cs IH]; intros c Hc Hcs; simpl.
  - constructor; [by apply leb_refl | constructor].
  - apply Forall_cons in Hcs as [Ha Hcs].
    assert (Hm : is_nan (std_min c a) = false).
    { destruct (std_min_cases c a) as [-> | ->]; done. }
    specialize (IH _ Hm Hcs). apply Forall_cons in IH as [Hm' IH].
    constructor; [|constructor; [|exact IH]].
    + eapply leb_trans; [exact Hm'|]. by apply std_min_leb_l.
    + eapply leb_trans; [exact Hm'|]. by apply std_min_leb_r.
Qed.

Lemma cloud_mag_Some (rV : Matrix3Xd) :
  rV <> [] ->
  exists c cs, coeffs rV = c :: cs /\
    cloud_mag rV = Some (filterVs_mag (fold_left std_max cs c) (fold_left std_min cs c)).
Proof.
  intros H. unfold cloud_mag, maxCoeff, minCoeff.
  destruct rV as [|p rV]; [done|]. simpl. eauto.
Qed.

Lemma cloud_mag_largest_abs (rV : Matrix3Xd) (mag : float) :
  cloud_mag rV = Some mag -> cloud_numbers rV = true -> largest_abs mag rV.
Proof.
  unfold cloud_mag, maxCoeff, minCoeff, cloud_numbers, largest_abs.
  destruct (coeffs rV) as [|c cs]; [discriminate|].
  intros [= <-] Hn.
  assert (Hall : Forall (fun x => is_nan x = false) (c :: cs)).
  { apply Forall_forall. intros x Hx%list_elem_of_In.
    rewrite forallb_forall in Hn. specialize (Hn x Hx).
    unfold is_number in Hn. by apply negb_true_iff in Hn. }
  pose proof Hall as Hall'. apply Forall_cons in Hall' as [Hc Hcs].
  pose proof (fold_max_upper cs c Hc Hcs) as Hup.
  pose proof (fold_min_lower cs c Hc Hcs) as Hlo.
  split.
  - apply Exists_exists. unfold filterVs_mag.
    destruct (std_max_cases (fabs (fold_left std_max cs c)) (fabs (fold_left std_min cs c)))
      as [-> | ->]; eexists; (split; [|reflexivity]).
    + apply fold_max_elem.
    + apply fold_min_elem.
  - rewrite Forall_forall in Hup, Hlo. apply Forall_forall. intros x Hx.
    apply abs_leb_mag; auto.
Qed.

End KeptFacts.

(** ** [filterVs] *)
Module FilterVsTheorems.
Import geo_utils Spec Invariants FloatFacts FloatSpecial KeyOrder FilterFacts KeptFacts.

Lemma filterVs_kept (rV : Matrix3Xd) (eps mag : float) :
  cloud_mag rV = Some mag ->
  filterVs rV eps = Some (kept (filterVs_res mag eps) [] rV).
Proof.
  intros H. unfold filterVs. rewrite H. simpl.
  rewrite filterVs_loop_kept. reflexivity.
Qed.

Lemma cloud_mag_nonempty (rV : Matrix3Xd) :
  rV <> [] -> exists mag, cloud_mag rV = Some mag.
Proof. intros H. destruct (cloud_mag_Some rV H) as (c & cs & _ & E). eauto. Qed.

(** C4, as the code has it.  For a cloud that is not empty, [filterVs] takes for [mag] the largest
    absolute coordinate of the cloud (when the coordinates are numbers), for
    [res] the product [mag * max(|eps| / mag, DBL_EPSILON)], for the key of a
    point [p] the rounded quotients [round(p / res)], and, when the keys are
    numbers, returns in input order the first point of each key, dropping
    every point whose key was met before. *)
Theorem filterVs_first_of_each_key (rV : Matrix3Xd) (eps : float) :
  rV <> [] ->
  exists mag,
    cloud_mag rV = Some mag /\
    (cloud_numbers rV = true -> largest_abs mag rV) /\
    filterVs_res mag eps = mag * std_max (fabs eps / mag) DBL_EPSILON /\
    (forall p res,
       quantize res p =
       V3 (round (v0 p / res)) (round (v1 p / res)) (round (v2 p / res))) /\
    (forallb key_defined (map (quantize (filterVs_res mag eps)) rV) = true ->
     filterVs rV eps =
     Some (first_of_each_key (quantize (filterVs_res mag eps)) [] rV)).
Proof.
  intros Hne. destruct (cloud_mag_nonempty rV Hne) as [mag Hmag].
  exists mag. split_and!; [done | by apply cloud_mag_largest_abs | done | done |].
  intros Hk. rewrite (filterVs_kept _ _ _ Hmag). f_equal.
  apply kept_first_of_each_key; simpl; auto.
  - intros k Hk'. by apply elem_of_nil in Hk'.
  - apply Forall_forall. intros p Hp.
    rewrite forallb_forall in Hk. apply Hk, in_map, list_elem_of_In, Hp.
Qed.

Lemma filterVs_first_of_each_key_witness :
  exists mag,
    cloud_mag [V3 1 2 3; V3 1 2 3; V3 1 2 3.5; V3 0 (-1) 0; V3 1 2 3] = Some mag /\
    largest_abs mag [V3 1 2 3; V3 1 2 3; V3 1 2 3.5; V3 0 (-1) 0; V3 1 2 3] /\
    filterVs [V3 1 2 3; V3 1 2 3; V3 1 2 3.5; V3 0 (-1) 0; V3 1 2 3] 0x1p-20 =
    Some [V3 1 2 3; V3 1 2 3.5; V3 0 (-1) 0].
Proof.
  destruct (filterVs_first_of_each_key
              [V3 1 2 3; V3 1 2 3; V3 1 2 3.5; V3 0 (-1) 0; V3 1 2 3] 0x1p-20)
    as (mag & Hmag & Hlargest & _ & _ & Hout); [discriminate|].
  exists mag. split; [exact Hmag|]. split; [apply Hlargest; reflexivity|].
  assert (E : mag = 3.5) by (vm_compute in Hmag; congruence).
  rewrite Hout; rewrite E; vm_compute; reflexivity.
Defined.

Lemma all_zero_mag (rV : Matrix3Xd) :
  rV <> [] -> all_zero rV = true -> cloud_mag rV = Some 0.
Proof.
  intros Hne Hz. destruct (cloud_mag_Some rV Hne) as (c & cs & Hc & ->).
  unfold all_zero in Hz. rewrite Hc in Hz. rewrite forallb_forall in Hz.
  assert (Hhi : (fold_left std_max cs c =? 0) = true).
  { apply Hz, list_elem_of_In, fold_max_elem. }
  assert (Hlo : (fold_left std_min cs c =? 0) = true).
  { apply Hz, list_elem_of_In, fold_min_elem. }
  unfold filterVs_mag, fabs. rewrite (abs_of_zero _ Hhi), (abs_of_zero _ Hlo).
  reflexivity.
Qed.

(** C8, as the code has it.  For a cloud that is not empty and whose
    coordinates are all zero, [mag] is zero, the resolution divides by it and
    is NaN whatever the tolerance, and [filterVs] returns exactly one point,
    the first of the cloud. *)
Theorem filterVs_all_zero (rV : Matrix3Xd) (eps : float) :
  rV <> [] -> all_zero rV = true ->
  cloud_mag rV = Some 0 /\
  is_nan (filterVs_res 0 eps) = true /\
  filterVs rV eps = Some (take 1 rV).
Proof.
  intros Hne Hz. pose proof (all_zero_mag rV Hne Hz) as Hmag.
  split_and!; [done | by rewrite filterVs_res_0 |].
  rewrite (filterVs_kept _ _ _ Hmag), filterVs_res_0.
  destruct rV as [|p rV]; [done|]. simpl. rewrite take_0.
  change (set_find (quantize nan p) []) with false. simpl.
  rewrite kept_same_key; [reflexivity|].
  apply Forall_forall. intros q _. by rewrite !quantize_nan.
Qed.

Lemma filterVs_all_zero_witness :
  filterVs [V3 0 0 0; V3 0 (-0) 0; V3 0 0 0] 0x1p-20 = Some [V3 0 0 0].
Proof.
  apply (filterVs_all_zero [V3 0 0 0; V3 0 (-0) 0; V3 0 0 0] 0x1p-20);
    [discriminate | reflexivity].
Defined.

(** C8, as the specification states it, fails: on the cloud of the single
    point [(0, 0, 0)] with the default tolerance 1e-6 the divisor [mag] of the
    resolution is zero, the quotient [|eps| / mag] is infinite and the
    resolution is NaN. *)
Lemma filterVs_zero_cloud_divides_by_zero :
  cloud_mag [V3 0 0 0] = Some 0 /\
  fabs Examples.default_epsilon / 0 = infinity /\
  is_nan (filterVs_res 0 Examples.default_epsilon) = true.
Proof. split_and!; reflexivity. Qed.

(** C4, as the specification states it, fails.  On the cloud of the points
    [(1, 2, 3)] and [(inf, 1, 2)] with the default tolerance, [mag] and [res]
    are infinite, the keys are [(0, 0, 0)] and [(NaN, 0, 0)], which differ, so
    that the specification keeps both points; [filterVs] keeps the first
    only. *)
Lemma filterVs_infinite_coordinate :
  cloud_mag [V3 1 2 3; V3 infinity 1 2] = Some infinity /\
  filterVs_res infinity Examples.default_epsilon = infinity /\
  quantize infinity (V3 1 2 3) = V3 0 0 0 /\
  quantize infinity (V3 infinity 1 2) = V3 nan 0 0 /\
  first_of_each_key (quantize infinity) [] [V3 1 2 3; V3 infinity 1 2]
    = [V3 1 2 3; V3 infinity 1 2] /\
  filterVs [V3 1 2 3; V3 infinity 1 2] Examples.default_epsilon
    = Some [V3 1 2 3].
Proof. split_and!; reflexivity. Qed.

(** C9, as the code has it.  A cloud that is not empty and in which the set
    tells any two keys apart is returned as it is; so is, in particular, a
    cloud whose keys are numbers that differ from one another.  A cloud of
    [k >= 1] copies of one point is reduced to that point. *)
Theorem filterVs_idempotent :
  (forall (rV : Matrix3Xd) (eps mag : float),
     cloud_mag rV = Some mag ->
     pairwise_distinct same_key (map (quantize (filterVs_res mag eps)) rV) = true ->
     filterVs rV eps = Some rV) /\
  (forall (rV : Matrix3Xd) (eps mag : float),
     cloud_mag rV = Some mag ->
     forallb key_defined (map (quantize (filterVs_res mag eps)) rV) = true ->
     pairwise_distinct key_eqb (map (quantize (filterVs_res mag eps)) rV) = true ->
     filterVs rV eps = Some rV) /\
  (forall (p : Vector3d) (k : nat) (eps : float),
     (1 <= k)%nat -> filterVs (replicate k p) eps = Some [p]).
Proof.
  assert (H1 : forall (rV : Matrix3Xd) (eps mag : float),
     cloud_mag rV = Some mag ->
     pairwise_distinct same_key (map (quantize (filterVs_res mag eps)) rV) = true ->
     filterVs rV eps = Some rV).
  { intros rV eps mag Hmag Hd. rewrite (filterVs_kept _ _ _ Hmag). f_equal.
    apply kept_distinct; simpl; auto.
    intros p e _ He. by apply elem_of_nil in He. }
  split_and!.
  - exact H1.
  - intros rV eps mag Hmag Hdef Hd. apply (H1 _ _ _ Hmag).
    by apply pairwise_distinct_numbers.
  - intros p k eps Hk. destruct k as [|k]; [lia|].
    destruct (cloud_mag_nonempty (replicate (S k) p)) as [mag Hmag]; [done|].
    rewrite (filterVs_kept _ _ _ Hmag). simpl.
    change (set_find (quantize (filterVs_res mag eps) p) []) with false. simpl.
    rewrite kept_same_key; [reflexivity|].
    apply Forall_forall. by intros q ->%elem_of_replicate_inv.
Qed.

Lemma filterVs_idempotent_witness :
  filterVs [V3 1 2 3; V3 1 2 3.5; V3 0 (-1) 0] 0x1p-20 =
    Some [V3 1 2 3; V3 1 2 3.5; V3 0 (-1) 0] /\
  filterVs [V3 1 2 3; V3 (-3.5) 2 0] 0x1p-20 =
    Some [V3 1 2 3; V3 (-3.5) 2 0] /\
  filterVs (replicate 3 (V3 1 2 3)) 0x1p-20 = Some [V3 1 2 3].
Proof.
  destruct filterVs_idempotent as (H1 & H2 & H3).
  split_and!.
  - apply (H1 _ _ 3.5); reflexivity.
  - apply (H2 _ _ 3.5); reflexivity.
  - apply H3; lia.
Defined.

(** C9, as the specification states it, fails.  On the cloud of the points
    [(0.5, 0.5, 0.5)] and [(0.25, -inf, 0.75)] with the default tolerance the
    keys are [(0, 0, 0)] and [(0, NaN, 0)]: no two points have the same key,
    and yet [filterVs] returns the first point only.  On the empty cloud
    [filterVs] fails (Eigen's [maxCoeff] asserts that the matrix is not
    empty). *)
Lemma filterVs_distinct_keys_dropped :
  cloud_mag [V3 0.5 0.5 0.5; V3 0.25 neg_infinity 0.75] = Some infinity /\
  map (quantize (filterVs_res infinity Examples.default_epsilon))
      [V3 0.5 0.5 0.5; V3 0.25 neg_infinity 0.75]
    = [V3 0 0 0; V3 0 nan 0] /\
  pairwise_distinct key_eqb [V3 0 0 0; V3 0 nan 0] = true /\
  filterVs [V3 0.5 0.5 0.5; V3 0.25 neg_infinity 0.75] Examples.default_epsilon
    = Some [V3 0.5 0.5 0.5] /\
  filterVs [] Examples.default_epsilon = None.
Proof. split_and!; reflexivity. Qed.

End FilterVsTheorems.

(** ** The functions that call the external solvers *)
Module OracleTheorems.
Import geo_utils Spec FloatFacts FloatSpecial.

Section WithOracles.

Variable linprog : Vector4d -> MatrixX4d -> VectorXd -> float * Vector4d.
Variable getConvexHull : Matrix3Xd -> bool -> bool -> float -> list nat.
Variable defaultEps : float.

(** *** [enumerateVs] *)

Lemma enumerateVs_A_dual (hPoly : MatrixX4d) (inner : Vector3d) :
  enumerateVs_A hPoly inner = map (dual_point inner) hPoly.
Proof.
  unfold enumerateVs_A, enumerateVs_b.
  induction hPoly as [|h hPoly IH]; simpl; [reflexivity|].
  f_equal. exact IH.
Qed.

Lemma list_ind3 (P : list nat -> Prop) :
  P [] -> (forall a, P [a]) -> (forall a b, P [a; b]) ->
  (forall a b c l, P l -> P (a :: b :: c :: l)) ->
  forall l, P l.
Proof.
  intros H0 H1 H2 H3 l.
  cut (P l /\ (forall a, P (a :: l)) /\ (forall a b, P (a :: b :: l))); [tauto|].
  induction l as [|x l (IH0 & IH1 & IH2)]; split_and!; auto.
Qed.

Lemma facet_vertex_S (A : Matrix3Xd) (i0 i1 i2 : nat) (rest : list nat) (i : nat) :
  facet_vertex A (i0 :: i1 :: i2 :: rest) (S i) = facet_vertex A rest i.
Proof.
  unfold facet_vertex.
  replace (3 * S i)%nat with (S (S (S (3 * i)))) by lia.
  reflexivity.
Qed.

Lemma mapM_seq_S {B : Type} (f : nat -> option B) (n : nat) : forall j,
  mapM f (seq (S j) n) = mapM (fun i => f (S i)) (seq j n).
Proof.
  induction n as [|n IH]; intros j; simpl; [reflexivity|].
  rewrite IH. reflexivity.
Qed.

Lemma mapM_cons {B : Type} (f : nat -> option B) (x : nat) (l : list nat) :
  mapM f (x :: l) =
  match f x with
  | None => None
  | Some y => match mapM f l with None => None | Some k => Some (y :: k) end
  end.
Proof. simpl. destruct (f x); [|reflexivity]. simpl. destruct (mapM f l); reflexivity. Qed.

Lemma length_div3 (i0 i1 i2 : nat) (rest : list nat) :
  (length (i0 :: i1 :: i2 :: rest) / 3 = S (length rest / 3))%nat.
Proof.
  simpl length. change (S (S (S (length rest)))) with (1 * 3 + length rest)%nat.
  rewrite Nat.div_add_l by lia. reflexivity.
Qed.

(** The loop over the facet numbers reads the index buffer three indices at
    a time. *)
Lemma mapM_facet_vertex (A : Matrix3Xd) (idBuffer : list nat) :
  mapM (facet_vertex A idBuffer) (seq 0 (length idBuffer / 3)) =
  match facets A idBuffer with
  | None => None
  | Some fs => Some (map primal_vertex fs)
  end.
Proof.
  induction idBuffer as [|a|a b|i0 i1 i2 rest IH] using list_ind3;
    try reflexivity.
  rewrite length_div3.
  change (seq 0 (S (length rest / 3))) with (0%nat :: seq 1 (length rest / 3)).
  rewrite mapM_cons, mapM_seq_S.
  rewrite (mapM_ext _ (facet_vertex A rest)) by (intros i; apply facet_vertex_S).
  rewrite IH. unfold facet_vertex at 1. simpl.
  destruct (A !! i1), (A !! i0), (A !! i2), (facets A rest); reflexivity.
Qed.

(** C1.  [enumerateVs] maps row [i] to the dual point
    [n_i / (-d_i - n_i . inner)], takes the hull of the dual points, maps each
    facet [(p0, p1, p2)] of the hull, in emitted order, to
    [(p1 - p0) x (p2 - p1) / (((p1 - p0) x (p2 - p1)) . p1)], filters these
    vertices with [filterVs] and the same tolerance, and adds [inner] to every
    point that is left. *)
Theorem enumerateVs_polar_dual (hPoly : MatrixX4d) (inner : Vector3d)
    (eps : float) :
  enumerateVs getConvexHull defaultEps hPoly inner eps =
  let duals := map (dual_point inner) hPoly in
  match facets duals (getConvexHull duals false true (std_min eps defaultEps)) with
  | None => None
  | Some fs =>
      match filterVs (map primal_vertex fs) eps with
      | None => None
      | Some fV => Some (map (fun p => v3_add p inner) fV)
      end
  end.
Proof.
  unfold enumerateVs. rewrite enumerateVs_A_dual, mapM_facet_vertex.
  simpl. destruct (facets _ _); reflexivity.
Qed.

(** *** [findInterior] *)

Lemma finite_ltb (v t : float) :
  (v <? t) = true -> is_finite v = negb (is_infinity v).
Proof.
  intros [H _]%ltb_number. unfold is_finite. rewrite H. reflexivity.
Qed.

Lemma leb_0_not_ltb_0 (v : float) : (0 <=? v) = true -> (v <? 0) = false.
Proof. intros. float_order. Qed.

Lemma findInterior_flag (hPoly : MatrixX4d) (interior : Vector3d) :
  (findInterior linprog hPoly interior).1 =
  let v := (linprog shift_objective (findInterior_A hPoly)
                    (findInterior_b hPoly)).1 in
  (v <? 0) && negb (is_infinity v).
Proof. unfold findInterior, isinf. by destruct (linprog _ _ _). Qed.

(** A value below a threshold and not infinite is finite, and the other way
    round. *)
Lemma below_and_not_inf (v t : float) :
  (v <? t) && negb (is_infinity v) = true <->
  is_finite v = true /\ (v <? t) = true.
Proof.
  split.
  - intros [Hlt Hinf]%andb_true_iff. by rewrite (finite_ltb _ _ Hlt).
  - intros [Hfin Hlt]. rewrite Hlt. simpl. by rewrite <- (finite_ltb _ _ Hlt).
Qed.

Lemma not_finite_not_below (v t : float) :
  is_finite v = false -> (v <? t) && negb (is_infinity v) = false.
Proof.
  intros H. destruct (v <? t) eqn:Hlt; [|reflexivity].
  simpl. by rewrite <- (finite_ltb _ _ Hlt).
Qed.

(** C2.  [findInterior] returns true exactly when the objective value the LP
    oracle returns for the normalised system is finite and negative; it
    returns false when that value is not negative and when it is not finite. *)
Theorem findInterior_true_iff (hPoly : MatrixX4d) (interior : Vector3d) :
  let v := (linprog shift_objective (findInterior_A hPoly)
                    (findInterior_b hPoly)).1 in
  ((findInterior linprog hPoly interior).1 = true <->
     is_finite v = true /\ (v <? 0) = true) /\
  ((0 <=? v) = true -> (findInterior linprog hPoly interior).1 = false) /\
  (is_finite v = false -> (findInterior linprog hPoly interior).1 = false).
Proof.
  intros v. rewrite findInterior_flag. fold v. simpl.
  split_and!.
  - apply below_and_not_inf.
  - intros H. by rewrite (leb_0_not_ltb_0 _ H).
  - apply not_finite_not_below.
Qed.

(** C10.  Whatever it returns, [findInterior] leaves in [interior] the first
    three components of the point the LP oracle returned; what [interior]
    held before the call is lost. *)
Theorem findInterior_overwrites_interior (hPoly : MatrixX4d)
    (interior interior' : Vector3d) :
  (findInterior linprog hPoly interior).2 =
    head3 (linprog shift_objective (findInterior_A hPoly)
                   (findInterior_b hPoly)).2 /\
  (findInterior linprog hPoly interior).2 =
    (findInterior linprog hPoly interior').2.
Proof.
  unfold findInterior. destruct (linprog _ _ _) as [v x]. simpl. auto.
Qed.

Lemma lookup_zip_with_map {B C : Type} (f : Vector4d -> B -> C)
    (g : Vector4d -> B) (l : MatrixX4d) (i : nat) (h : Vector4d) :
  l !! i = Some h -> zip_with f l (map g l) !! i = Some (f h (g h)).
Proof.
  revert i. induction l as [|a l IH]; intros [|i]; simpl; try discriminate.
  - by intros [= ->].
  - apply IH.
Qed.

(** C7, as the code has it.  A row whose normal has zero length is divided by
    zero: the three normal coefficients and the right-hand side handed to the
    LP oracle for that row are NaN or infinite.  For every system,
    [findInterior] returns false when the oracle reports a value that is not
    finite or not negative. *)
Theorem findInterior_zero_normal (hPoly : MatrixX4d) (interior : Vector3d) :
  (forall (i : nat) (h : Vector4d),
     hPoly !! i = Some h -> (norm (leftCols3 h) =? 0) = true ->
     exists row bi,
       findInterior_A hPoly !! i = Some row /\
       findInterior_b hPoly !! i = Some bi /\
       is_finite (h0 row) = false /\ is_finite (h1 row) = false /\
       is_finite (h2 row) = false /\ is_finite bi = false) /\
  (let v := (linprog shift_objective (findInterior_A hPoly)
                     (findInterior_b hPoly)).1 in
   is_finite v = false \/ (0 <=? v) = true ->
   (findInterior linprog hPoly interior).1 = false).
Proof.
  split.
  - intros i h Hi Hn. unfold findInterior_A, findInterior_b, hNorm.
    eexists _, _. split_and!.
    + by apply lookup_zip_with_map.
    + by apply lookup_zip_with_map.
    + by apply div_by_zero_not_finite.
    + by apply div_by_zero_not_finite.
    + by apply div_by_zero_not_finite.
    + by apply div_by_zero_not_finite.
  - intros v. rewrite findInterior_flag. fold v. simpl. intros [H | H].
    + by apply not_finite_not_below.
    + by rewrite (leb_0_not_ltb_0 _ H).
Qed.

(** *** [overlap] *)

Lemma overlap_flag (hPoly0 hPoly1 : MatrixX4d) (eps : float) :
  overlap linprog hPoly0 hPoly1 eps =
  let v := (linprog shift_objective (overlap_A hPoly0 hPoly1)
                    (overlap_b hPoly0 hPoly1)).1 in
  (v <? - eps) && negb (is_infinity v).
Proof. unfold overlap, isinf. by destruct (linprog _ _ _). Qed.

(** C3.  [overlap] hands the LP oracle the rows of [hPoly0] followed by those
    of [hPoly1], as they are, with the objective [-1] on the shift variable,
    and returns true exactly when the returned objective value is finite and
    below [-eps]; it returns false when that value is not finite, and when it
    is not negative while [eps] is not negative. *)
Theorem overlap_true_iff (hPoly0 hPoly1 : MatrixX4d) (eps : float) :
  let v := (linprog shift_objective (overlap_A hPoly0 hPoly1)
                    (overlap_b hPoly0 hPoly1)).1 in
  overlap_A hPoly0 hPoly1 =
    map (fun h => V4 (h0 h) (h1 h) (h2 h) 1) (hPoly0 ++ hPoly1) /\
  overlap_b hPoly0 hPoly1 = map (fun h => - h3 h) (hPoly0 ++ hPoly1) /\
  shift_objective = V4 0 0 0 (-1) /\
  (overlap linprog hPoly0 hPoly1 eps = true <->
     is_finite v = true /\ (v <? - eps) = true) /\
  (is_finite v = false -> overlap linprog hPoly0 hPoly1 eps = false) /\
  ((0 <=? v) = true -> (0 <=? eps) = true ->
   overlap linprog hPoly0 hPoly1 eps = false).
Proof.
  intros v. rewrite overlap_flag. fold v. simpl.
  split_and!.
  - unfold overlap_A. by rewrite map_app.
  - unfold overlap_b. by rewrite map_app.
  - reflexivity.
  - apply below_and_not_inf.
  - apply not_finite_not_below.
  - intros Hv He. by rewrite (leb_0_not_ltb_opp _ _ Hv He).
Qed.

Lemma overlap_A_length (hPoly0 hPoly1 : MatrixX4d) :
  length (overlap_A hPoly0 hPoly1) = (length hPoly0 + length hPoly1)%nat.
Proof. unfold overlap_A. by rewrite length_app, !length_map. Qed.

Lemma lp_feasible_app (A0 A1 : MatrixX4d) (b0 b1 : VectorXd) (x : Vector4d) :
  length A0 = length b0 ->
  lp_feasible (A0 ++ A1) (b0 ++ b1) x <->
  lp_feasible A0 b0 x /\ lp_feasible A1 b1 x.
Proof.
  intros Hlen. unfold lp_feasible. split.
  - by apply Forall2_app_inv.
  - intros [H0 H1]. by apply Forall2_app.
Qed.

Lemma overlap_feasible_comm (hPoly0 hPoly1 : MatrixX4d) (x : Vector4d) :
  lp_feasible (overlap_A hPoly0 hPoly1) (overlap_b hPoly0 hPoly1) x <->
  lp_feasible (overlap_A hPoly1 hPoly0) (overlap_b hPoly1 hPoly0) x.
Proof.
  unfold overlap_A, overlap_b.
  rewrite !lp_feasible_app by (by rewrite !length_map). tauto.
Qed.

(** C6.  With an LP oracle whose objective value is determined by the
    objective and the constraint set, [overlap] gives the same answer for
    [(A, B)] and for [(B, A)], although the rows are stacked in opposite
    orders. *)
Theorem overlap_symmetric (A B : MatrixX4d) (eps : float) :
  lp_value_determined linprog ->
  overlap linprog A B eps = overlap linprog B A eps.
Proof.
  intros Hlp. unfold overlap.
  pose proof (Hlp shift_objective _ _ _ _ (overlap_feasible_comm A B)) as Hv.
  destruct (linprog _ (overlap_A A B) _) as [v x].
  destruct (linprog _ (overlap_A B A) _) as [v' x'].
  simpl in Hv. by subst.
Qed.

(** *** The overload of [enumerateVs] without [inner] *)

(** C5.  The overload returns false, leaving [vPoly] as it was, exactly when
    [findInterior] fails; when [findInterior] succeeds it returns true with
    the output of [enumerateVs] for the point [findInterior] computed. *)
Theorem enumerateVs_auto_spec (hPoly : MatrixX4d) (vPoly : Matrix3Xd)
    (eps : float) (inner0 : Vector3d) :
  let found := (findInterior linprog hPoly inner0).1 in
  let inner := (findInterior linprog hPoly inner0).2 in
  (found = false <->
   enumerateVs_auto linprog getConvexHull defaultEps hPoly vPoly eps inner0
     = Some (false, vPoly)) /\
  (found = true ->
   enumerateVs_auto linprog getConvexHull defaultEps hPoly vPoly eps inner0
     = match enumerateVs getConvexHull defaultEps hPoly inner eps with
       | None => None
       | Some vPoly' => Some (true, vPoly')
       end).
Proof.
  unfold enumerateVs_auto.
  destruct (findInterior linprog hPoly inner0) as [found inner]. simpl.
  split.
  - split; [by intros -> |].
    destruct found; [|done].
    by destruct (enumerateVs _ _ _ _ _).
  - by intros ->.
Qed.

End WithOracles.

End OracleTheorems.

(** ** The theorems at concrete inputs *)
Module OracleExamples.
Import geo_utils Spec Examples OracleTheorems.

Lemma lp_feasibleb_iff (A : MatrixX4d) (b : VectorXd) (x : Vector4d) :
  lp_feasibleb A b x = true <-> lp_feasible A b x.
Proof.
  unfold lp_feasible. revert b.
  induction A as [|row A IH]; intros [|bi b]; simpl.
  - split; [constructor | reflexivity].
  - split; [discriminate | inversion 1].
  - split; [discriminate | inversion 1].
  - rewrite andb_true_iff, IH. split.
    + intros [H1 H2]. by constructor.
    + inversion 1; subst. by split.
Qed.

(** The candidate oracle meets the contract of the LP oracle. *)
Lemma candidate_linprog_determined (cands : list Vector4d) :
  lp_value_determined (candidate_linprog cands).
Proof.
  intros c A b A' b' Hsame. unfold candidate_linprog.
  rewrite (List.filter_ext (lp_feasibleb A b) (lp_feasibleb A' b')); [reflexivity|].
  intros x. apply eq_true_iff_eq. rewrite !lp_feasibleb_iff. apply Hsame.
Qed.

Lemma findInterior_true_iff_witness :
  (findInterior (candidate_linprog candidates) (cube 0 1) (V3 7 7 7)).1 = true /\
  (findInterior (candidate_linprog candidates) (cube 2 1) (V3 7 7 7)).1 = false.
Proof.
  split.
  - apply (findInterior_true_iff (candidate_linprog candidates) (cube 0 1) (V3 7 7 7)).
    split; reflexivity.
  - apply (proj1 (proj2 (findInterior_true_iff (candidate_linprog candidates)
                           (cube 2 1) (V3 7 7 7)))).
    reflexivity.
Defined.

Lemma findInterior_zero_normal_witness :
  exists row bi,
    findInterior_A [V4 1 0 0 (-1); V4 0 0 0 1] !! 1%nat = Some row /\
    findInterior_b [V4 1 0 0 (-1); V4 0 0 0 1] !! 1%nat = Some bi /\
    is_finite (h0 row) = false /\ is_finite (h1 row) = false /\
    is_finite (h2 row) = false /\ is_finite bi = false.
Proof.
  apply (proj1 (findInterior_zero_normal (candidate_linprog candidates)
                  [V4 1 0 0 (-1); V4 0 0 0 1] (V3 7 7 7)) 1%nat (V4 0 0 0 1));
    reflexivity.
Defined.

(** C7, as the specification states it, fails.  For the single row
    [(0, 0, 0, 1)], whose normal has length zero, the normalisation computes
    [0 / 0] and [-1 / 0]: the row handed to the LP oracle is
    [(NaN, NaN, NaN, 1)] with right-hand side minus infinity. *)
Lemma findInterior_divides_by_zero :
  hNorm [V4 0 0 0 1] = [0] /\
  findInterior_A [V4 0 0 0 1] = [V4 nan nan nan 1] /\
  findInterior_b [V4 0 0 0 1] = [neg_infinity].
Proof. split_and!; reflexivity. Qed.

Lemma overlap_true_iff_witness :
  overlap (candidate_linprog candidates) (cube 0 1) (cube 0.5 1.5)
          default_epsilon = true /\
  overlap (candidate_linprog candidates) (cube 0 1) (cube 1 2)
          default_epsilon = false.
Proof.
  split.
  - apply (overlap_true_iff (candidate_linprog candidates)
             (cube 0 1) (cube 0.5 1.5) default_epsilon).
    split; reflexivity.
  - destruct (overlap_true_iff (candidate_linprog candidates)
               (cube 0 1) (cube 1 2) default_epsilon) as (_ & _ & _ & _ & _ & H).
    apply H; reflexivity.
Defined.

(** C3, as the specification states it, fails for a negative tolerance.  The
    cubes [0, 1]^3 and [2, 3]^3 are disjoint; the optimum of their stacked LP
    is [0.5] (the largest shift is [w = -0.5], at [x = y = z = 1.5]), which the
    candidate oracle returns; with [eps = -4] the test [0.5 < 4] holds and
    [overlap] returns true. *)
Lemma overlap_negative_eps :
  (candidate_linprog candidates shift_objective
     (overlap_A (cube 0 1) (cube 2 3)) (overlap_b (cube 0 1) (cube 2 3))).1 = 0.5 /\
  overlap (candidate_linprog candidates) (cube 0 1) (cube 2 3) (-4) = true.
Proof. split; reflexivity. Qed.

Lemma overlap_symmetric_witness :
  overlap (candidate_linprog candidates) (cube 0 1) (cube 0.5 1.5) default_epsilon =
  overlap (candidate_linprog candidates) (cube 0.5 1.5) (cube 0 1) default_epsilon /\
  overlap (candidate_linprog candidates) (cube 0 1) (cube 0.5 1.5) default_epsilon = true.
Proof.
  split; [|reflexivity].
  apply (overlap_symmetric (candidate_linprog candidates)).
  apply candidate_linprog_determined.
Defined.

Lemma enumerateVs_auto_spec_witness :
  enumerateVs_auto (candidate_linprog candidates) octahedron_hull 0x1p-23
    (cube 0 1) [] default_epsilon (V3 7 7 7)
  = Some (true, [V3 1 1 1; V3 0 1 1; V3 0 0 1; V3 1 0 1;
                 V3 1 1 0; V3 0 1 0; V3 0 0 0; V3 1 0 0]) /\
  enumerateVs_auto (candidate_linprog candidates) octahedron_hull 0x1p-23
    (cube 2 1) [V3 9 9 9] default_epsilon (V3 7 7 7)
  = Some (false, [V3 9 9 9]).
Proof.
  split.
  - rewrite (proj2 (enumerateVs_auto_spec (candidate_linprog candidates)
                      octahedron_hull 0x1p-23 (cube 0 1) [] default_epsilon
                      (V3 7 7 7))); reflexivity.
  - apply (proj1 (enumerateVs_auto_spec (candidate_linprog candidates)
                    octahedron_hull 0x1p-23 (cube 2 1) [V3 9 9 9]
                    default_epsilon (V3 7 7 7))).
    reflexivity.
Defined.

End OracleExamples.

(** ** Further properties of [filterLess] and [filterVs] *)
Module FurtherProperties.
Import geo_utils Spec Invariants FloatFacts KeyOrder FilterFacts KeptFacts
  FilterVsTheorems.

(** [filterLess] is a strict order on all vectors, NaN coordinates included;
    on vectors whose coordinates are numbers it is total up to equality axis
    by axis, and the keys it does not tell apart are the equal ones. *)
Theorem filterLess_strict_order :
  (forall k, filterLess k k = false) /\
  (forall a b c,
     filterLess a b = true -> filterLess b c = true -> filterLess a c = true) /\
  (forall a b,
     key_defined a = true -> key_defined b = true ->
     filterLess a b = true \/ key_eqb a b = true \/ filterLess b a = true) /\
  (forall a b,
     key_defined a = true -> key_defined b = true ->
     same_key a b = key_eqb a b).
Proof.
  split_and!.
  - apply filterLess_irrefl.
  - apply filterLess_trans.
  - intros a b Ha Hb.
    destruct (filterLess a b) eqn:Eab; [by left|].
    destruct (filterLess b a) eqn:Eba; [by right; right|].
    right; left. apply same_key_key_eqb; [done..|].
    unfold same_key. by rewrite Eab, Eba.
  - intros a b Ha Hb. destruct (same_key a b) eqn:E.
    + symmetry. by apply same_key_key_eqb.
    + destruct (key_eqb a b) eqn:E'; [|reflexivity].
      by rewrite (key_eqb_same_key _ _ E') in E.
Qed.

Lemma filterLess_strict_order_witness :
  filterLess (V3 1 2 3) (V3 1 2 4) = true \/
  key_eqb (V3 1 2 3) (V3 1 2 4) = true \/
  filterLess (V3 1 2 4) (V3 1 2 3) = true.
Proof.
  destruct filterLess_strict_order as (_ & _ & H & _).
  apply H; reflexivity.
Defined.

Lemma kept_sublist (res : float) (pts : Matrix3Xd) : forall s : key_set,
  sublist (kept res s pts) pts.
Proof.
  induction pts as [|p pts IH]; intros s; simpl; [constructor|].
  destruct (set_find (quantize res p) s).
  - apply sublist_cons, IH.
  - apply sublist_skip, IH.
Qed.

(** Whatever the cloud and the tolerance, the points [filterVs] returns are
    points of the cloud in their input order, and the first point of the cloud
    is the first point returned. *)
Theorem filterVs_sublist (rV fV : Matrix3Xd) (eps : float) :
  filterVs rV eps = Some fV ->
  sublist fV rV /\ head fV = head rV.
Proof.
  unfold filterVs. destruct (cloud_mag rV) as [mag|] eqn:Hmag; [|discriminate].
  simpl. rewrite filterVs_loop_kept. intros [= <-]. split.
  - apply kept_sublist.
  - by destruct rV.
Qed.

Lemma filterVs_sublist_witness :
  sublist [V3 1 2 3; V3 1 2 3.5] [V3 1 2 3; V3 1 2 3; V3 1 2 3.5] /\
  head [V3 1 2 3; V3 1 2 3.5] = head [V3 1 2 3; V3 1 2 3; V3 1 2 3.5].
Proof.
  apply (filterVs_sublist [V3 1 2 3; V3 1 2 3; V3 1 2 3.5]
           [V3 1 2 3; V3 1 2 3.5] 0x1p-20).
  reflexivity.
Defined.

(** What the specification's description keeps: no key twice, none of the
    keys met before, and a representative for every key. *)
Lemma first_of_each_key_spec (key : Vector3d -> Vector3d) (pts : Matrix3Xd) :
  forall earlier : list Vector3d,
  Forall (fun k => key_defined k = true) earlier ->
  Forall (fun p => key_defined (key p) = true) pts ->
  let out := first_of_each_key key earlier pts in
  pairwise_distinct key_eqb (map key out) = true /\
  Forall (fun q => existsb (key_eqb (key q)) earlier = false) out /\
  Forall (fun p => existsb (key_eqb (key p)) (map key out ++ earlier) = true) pts.
Proof.
  induction pts as [|p pts IH]; intros earlier Hearlier Hpts; simpl.
  { split_and!; [reflexivity | constructor | constructor]. }
  apply Forall_cons in Hpts as [Hp Hpts].
  assert (Hearlier' : Forall (fun k => key_defined k = true) (key p :: earlier))
    by (by constructor).
  destruct (IH (key p :: earlier) Hearlier' Hpts) as (IH1 & IH2 & IH3).
  assert (Hweak : forall q, existsb (key_eqb (key q)) (key p :: earlier) = false ->
                  key_eqb (key q) (key p) = false /\
                  existsb (key_eqb (key q)) earlier = false).
  { intros q. simpl. by intros [? ?]%orb_false_iff. }
  destruct (existsb (key_eqb (key p)) earlier) eqn:Ex.
  - split_and!; [exact IH1| |].
    + eapply Forall_impl; [exact IH2|]. intros q Hq. by apply Hweak.
    + constructor.
      * rewrite existsb_app, Ex. apply orb_true_r.
      * eapply Forall_impl; [exact IH3|]. intros q Hq.
        simpl in Hq |- *. rewrite existsb_app in Hq |- *. simpl in Hq.
        apply orb_true_iff in Hq as [Hq | [Hq | Hq]%orb_true_iff].
        -- by rewrite Hq.
        -- apply orb_true_iff. right.
           apply existsb_exists in Ex as (k & Hk & Ek).
           apply existsb_exists. exists k. split; [done|].
           by apply (key_eqb_trans _ (key p)).
        -- rewrite Hq. apply orb_true_r.
  - simpl. split_and!.
    + rewrite IH1, andb_true_r. apply forallb_forall.
      intros k (q & <- & Hq)%in_map_iff. apply negb_true_iff.
      rewrite Forall_forall in IH2.
      destruct (Hweak q (IH2 q (proj2 (list_elem_of_In _ _) Hq))) as [E _].
      by rewrite key_eqb_sym.
    + constructor; [exact Ex|].
      eapply Forall_impl; [exact IH2|]. intros q Hq. by apply Hweak.
    + constructor.
      * simpl. by rewrite (key_eqb_refl _ Hp).
      * eapply Forall_impl; [exact IH3|]. intros q Hq.
        simpl in Hq |- *. rewrite existsb_app in Hq |- *. simpl in Hq |- *.
        apply orb_true_iff in Hq as [Hq | [Hq | Hq]%orb_true_iff].
        -- by rewrite Hq, !orb_true_r.
        -- by rewrite Hq.
        -- by rewrite Hq, !orb_true_r.
Qed.

(** For a cloud that is not empty and whose keys are numbers, no two points
    that [filterVs] returns have the same key, and every point of the cloud
    has the key of a returned point. *)
Theorem filterVs_deduplicates (rV fV : Matrix3Xd) (eps mag : float) :
  cloud_mag rV = Some mag ->
  forallb key_defined (map (quantize (filterVs_res mag eps)) rV) = true ->
  filterVs rV eps = Some fV ->
  pairwise_distinct key_eqb (map (quantize (filterVs_res mag eps)) fV) = true /\
  Forall (fun p =>
            existsb (key_eqb (quantize (filterVs_res mag eps) p))
                    (map (quantize (filterVs_res mag eps)) fV) = true) rV.
Proof.
  intros Hmag Hdef. rewrite (filterVs_kept _ _ _ Hmag). intros [= <-].
  assert (Hpts : Forall (fun p => key_defined (quantize (filterVs_res mag eps) p) = true) rV).
  { apply Forall_forall. intros p Hp.
    rewrite forallb_forall in Hdef. apply Hdef, in_map, list_elem_of_In, Hp. }
  rewrite (kept_first_of_each_key _ rV [] []); simpl; auto.
  2:{ intros k Hk. by apply elem_of_nil in Hk. }
  destruct (first_of_each_key_spec (quantize (filterVs_res mag eps)) rV []
              (Forall_nil_2 _) Hpts) as (H1 & _ & H3).
  split; [exact H1|]. by rewrite app_nil_r in H3.
Qed.

Lemma filterVs_deduplicates_witness :
  pairwise_distinct key_eqb
    (map (quantize (filterVs_res 3.5 0x1p-20)) [V3 1 2 3; V3 1 2 3.5]) = true /\
  Forall (fun p =>
            existsb (key_eqb (quantize (filterVs_res 3.5 0x1p-20) p))
                    (map (quantize (filterVs_res 3.5 0x1p-20))
                         [V3 1 2 3; V3 1 2 3.5]) = true)
         [V3 1 2 3; V3 1 2 3; V3 1 2 3.5].
Proof.
  apply (filterVs_deduplicates [V3 1 2 3; V3 1 2 3; V3 1 2 3.5]
           [V3 1 2 3; V3 1 2 3.5] 0x1p-20 3.5); reflexivity.
Defined.

End FurtherProperties.

(** ** More about [filterVs]: failure, bounds, the loop and its set *)
Module FilterVsMore.
Import geo_utils Spec Invariants FloatOrder FloatFacts FloatSpecial KeyOrder
  FilterFacts KeptFacts FilterVsTheorems FurtherProperties.

(** The state of the loop of [filterVs] after its first [n] turns. *)
Definition filterVs_loop_upto (res : float) (rV : Matrix3Xd) (n : nat)
    : filter_state :=
  fold_left (filterVs_step res rV) (seq 0 n) (FilterState [] rV 0).

(** A point whose three coordinates are finite. *)
Definition finite_point (p : Vector3d) : bool :=
  is_finite (v0 p) && is_finite (v1 p) && is_finite (v2 p).

Lemma cloud_mag_None (rV : Matrix3Xd) : cloud_mag rV = None <-> rV = [].
Proof.
  split.
  - intros H. destruct rV as [|p rV]; [reflexivity|].
    destruct (cloud_mag_nonempty (p :: rV)) as [mag Hmag]; [done|].
    rewrite Hmag in H. discriminate.
  - by intros ->.
Qed.

Lemma kept_nil_cons (res : float) (p : Vector3d) (pts : Matrix3Xd) :
  kept res [] (p :: pts) = p :: kept res [quantize res p] pts.
Proof. reflexivity. Qed.

Lemma filterVs_None_iff (rV : Matrix3Xd) (eps : float) :
  filterVs rV eps = None <-> rV = [].
Proof.
  rewrite <- cloud_mag_None. unfold filterVs.
  destruct (cloud_mag rV); split; congruence.
Qed.

Lemma filterVs_fails_bounds (rV fV : Matrix3Xd) (eps : float) :
  filterVs rV eps = Some fV -> (1 <= length fV <= length rV)%nat.
Proof.
  intros H.
  unfold filterVs in H. destruct (cloud_mag rV) as [mag|] eqn:Hmag; [|discriminate].
  simpl in H. rewrite filterVs_loop_kept in H. injection H as <-.
  split.
  - destruct rV as [|p rV]; [discriminate|]. rewrite kept_nil_cons. simpl. lia.
  - apply sublist_length, kept_sublist.
Qed.

(** [filterVs] fails on the empty cloud and on no other; on a cloud of [n >= 1]
    points it returns at least one point and at most [n]. *)
Theorem filterVs_fails_on_empty_only (rV : Matrix3Xd) (eps : float) :
  (filterVs rV eps = None <-> rV = []) /\
  (forall fV, filterVs rV eps = Some fV ->
     (1 <= length fV <= length rV)%nat).
Proof.
  split; [apply filterVs_None_iff | intros fV; apply filterVs_fails_bounds].
Qed.

Lemma filterVs_fails_on_empty_only_witness :
  (1 <= length [V3 1 2 3; V3 1 2 3.5] <=
        length [V3 1 2 3; V3 1 2 3; V3 1 2 3.5])%nat.
Proof.
  apply (proj2 (filterVs_fails_on_empty_only
                  [V3 1 2 3; V3 1 2 3; V3 1 2 3.5] 0x1p-20)).
  reflexivity.
Defined.

(** *** The loop never writes outside [fV], and its set stays ordered *)

Lemma set_insert_after_length (k : Vector3d) (s : key_set) : forall j,
  filterLess j k = true ->
  (forall e, e ∈ s -> same_key k e = false) ->
  length (set_insert_after j k s) = S (length s).
Proof.
  induction s as [|e s IH]; intros j Hjk Hnew; simpl.
  - by rewrite Hjk.
  - destruct (filterLess k e) eqn:Eke.
    + by rewrite Hjk.
    + simpl. f_equal. apply IH.
      * destruct (same_key_false k e) as [H|H]; [apply Hnew; by left | congruence | done].
      * intros x Hx. apply Hnew. by right.
Qed.

Lemma set_insert_length (k : Vector3d) (s : key_set) :
  (forall e, e ∈ s -> same_key k e = false) ->
  length (set_insert k s) = S (length s).
Proof.
  intros Hnew. destruct s as [|e s]; simpl; [reflexivity|].
  destruct (filterLess k e) eqn:Eke; [reflexivity|].
  simpl. f_equal. apply set_insert_after_length.
  - destruct (same_key_false k e) as [H|H]; [apply Hnew; by left | congruence | done].
  - intros x Hx. apply Hnew. by right.
Qed.

(** At every turn [n] of the loop the write position [offset] is at most [n],
    so that [fV.col(offset)] is a column of [fV], whose size does not change;
    the set [filter] is strictly ordered by [filterLess] and holds one key for
    each point written. *)
Theorem filterVs_loop_in_bounds (res : float) (rV : Matrix3Xd) (n : nat) :
  (n <= length rV)%nat ->
  let st := filterVs_loop_upto res rV n in
  (offset st <= n)%nat /\
  length (fV st) = length rV /\
  length (filter st) = offset st /\
  sorted (filter st).
Proof.
  unfold filterVs_loop_upto.
  induction n as [|n IH]; intros Hn; cbv zeta.
  - simpl. split_and!; auto.
  - rewrite seq_S, fold_left_app. simpl.
    destruct IH as (Ho & Hlen & Hset & Hs); [lia|].
    set (st := fold_left (filterVs_step res rV) (seq 0 n) (FilterState [] rV 0)) in *.
    destruct (lookup_lt_is_Some_2 rV n) as [p Hp]; [lia|].
    rewrite (filterVs_step_at _ _ _ _ _ Hp).
    destruct (set_find (quantize res p) (filter st)) eqn:Ef.
    + split_and!; auto.
    + pose proof (set_find_false _ _ Hs Ef) as Hnew.
      destruct (set_insert_spec _ _ Hs Hnew) as [Hs' _].
      simpl. split_and!.
      * lia.
      * by rewrite length_insert.
      * rewrite set_insert_length by done. by rewrite Hset.
      * exact Hs'.
Qed.

Lemma filterVs_loop_in_bounds_witness :
  (offset (filterVs_loop_upto 0x1p-20 [V3 1 2 3; V3 1 2 3; V3 1 2 3.5] 2) <= 2)%nat.
Proof.
  apply (filterVs_loop_in_bounds 0x1p-20 [V3 1 2 3; V3 1 2 3; V3 1 2 3.5] 2).
  simpl. lia.
Defined.

(** *** The keys of the points returned, for every cloud *)

Lemma kept_separated (res : float) (pts : Matrix3Xd) : forall s : key_set,
  sorted s ->
  pairwise_distinct same_key (map (quantize res) (kept res s pts)) = true /\
  (forall q e, q ∈ kept res s pts -> e ∈ s -> same_key (quantize res q) e = false) /\
  (forall p, p ∈ pts ->
     (exists e, e ∈ s /\ same_key (quantize res p) e = true) \/
     (exists q, q ∈ kept res s pts /\
                same_key (quantize res p) (quantize res q) = true)).
Proof.
  induction pts as [|p pts IH]; intros s Hs; simpl.
  { split_and!; [reflexivity | |].
    - intros q e Hq. by apply elem_of_nil in Hq.
    - intros p Hp. by apply elem_of_nil in Hp. }
  destruct (set_find (quantize res p) s) eqn:Ef.
  - destruct (IH s Hs) as (IH1 & IH2 & IH3). split_and!; [done..|].
    intros p' [-> | Hp']%elem_of_cons; [|by apply IH3].
    left. by apply set_find_true.
  - pose proof (set_find_false _ _ Hs Ef) as Hnew.
    destruct (set_insert_spec _ _ Hs Hnew) as [Hs' Hin'].
    destruct (IH _ Hs') as (IH1 & IH2 & IH3). simpl. split_and!.
    + rewrite IH1, andb_true_r. apply forallb_forall.
      intros k (q & <- & Hq%list_elem_of_In)%in_map_iff.
      apply negb_true_iff. rewrite same_key_sym.
      apply (IH2 q); [done|]. apply Hin'. by left.
    + intros q e [-> | Hq]%elem_of_cons He; [by apply Hnew|].
      apply (IH2 q); [done|]. apply Hin'. by right.
    + intros p' [-> | Hp']%elem_of_cons.
      * right. exists p. split; [by left | apply same_key_refl].
      * destruct (IH3 p' Hp') as [(e & [-> | He]%Hin' & Ee) | (q & Hq & Eq)].
        -- right. exists p. split; [by left | done].
        -- left. eauto.
        -- right. exists q. split; [by right | done].
Qed.

(** Whatever the cloud, NaN and infinite coordinates included: [filterLess]
    orders the keys of any two points that [filterVs] returns, and the key of
    every point of the cloud is one that [filterLess] does not order with the
    key of some returned point. *)
Theorem filterVs_keys_separated (rV fV : Matrix3Xd) (eps mag : float) :
  cloud_mag rV = Some mag ->
  filterVs rV eps = Some fV ->
  pairwise_distinct same_key (map (quantize (filterVs_res mag eps)) fV) = true /\
  Forall (fun p =>
            existsb (same_key (quantize (filterVs_res mag eps) p))
                    (map (quantize (filterVs_res mag eps)) fV) = true) rV.
Proof.
  intros Hmag. rewrite (filterVs_kept _ _ _ Hmag). intros [= <-].
  destruct (kept_separated (filterVs_res mag eps) rV [] I) as (H1 & _ & H3).
  split; [exact H1|]. apply Forall_forall. intros p Hp.
  destruct (H3 p Hp) as [(e & He & _) | (q & Hq & Eq)];
    [by apply elem_of_nil in He|].
  apply existsb_exists. exists (quantize (filterVs_res mag eps) q).
  split; [|done]. apply in_map, list_elem_of_In, Hq.
Qed.

Lemma filterVs_keys_separated_witness :
  pairwise_distinct same_key
    (map (quantize (filterVs_res infinity 0x1p-20)) [V3 1 2 3]) = true /\
  Forall (fun p =>
            existsb (same_key (quantize (filterVs_res infinity 0x1p-20) p))
                    (map (quantize (filterVs_res infinity 0x1p-20)) [V3 1 2 3])
            = true)
         [V3 1 2 3; V3 infinity 1 2].
Proof.
  apply (filterVs_keys_separated [V3 1 2 3; V3 infinity 1 2] [V3 1 2 3]
           0x1p-20 infinity); reflexivity.
Defined.

(** *** The sign of the tolerance *)

Lemma abs_opp (x : float) : abs (- x) = abs x.
Proof.
  apply Prim2SF_inj. rewrite !abs_spec, opp_spec.
  by destruct (Prim2SF x).
Qed.

(** [filterVs] reads its tolerance through [fabs]: a tolerance and its
    opposite give the same result. *)
Theorem filterVs_opp_epsilon (rV : Matrix3Xd) (eps : float) :
  filterVs rV (- eps) = filterVs rV eps.
Proof.
  unfold filterVs, filterVs_res, fabs. by rewrite abs_opp.
Qed.

(** *** A key with a NaN first coordinate *)

Lemma filterLess_nan_l (k q : Vector3d) :
  is_nan (v0 k) = true -> filterLess k q = false.
Proof.
  intros H. unfold filterLess.
  assert (E1 : (v0 k <? v0 q) = false) by float_order.
  assert (E2 : (v0 k =? v0 q) = false) by float_order.
  by rewrite E1, E2.
Qed.

Lemma filterLess_nan_r (k q : Vector3d) :
  is_nan (v0 k) = true -> filterLess q k = false.
Proof.
  intros H. unfold filterLess.
  assert (E1 : (v0 q <? v0 k) = false) by float_order.
  assert (E2 : (v0 q =? v0 k) = false) by float_order.
  by rewrite E1, E2.
Qed.

Lemma kept_nan_key (res : float) (k : Vector3d) (pts : Matrix3Xd) :
  is_nan (v0 k) = true -> kept res [k] pts = [].
Proof.
  intros H. induction pts as [|p pts IH]; simpl; [reflexivity|].
  unfold set_find. simpl.
  rewrite (filterLess_nan_l k _ H). simpl.
  by rewrite (filterLess_nan_r k _ H).
Qed.

(** When the first coordinate of the key of the first point is NaN, the set
    finds every later key: [filterVs] returns the first point alone, whatever
    the other points are. *)
Theorem filterVs_nan_first_key (p : Vector3d) (rest : Matrix3Xd)
    (eps mag : float) :
  cloud_mag (p :: rest) = Some mag ->
  is_nan (v0 (quantize (filterVs_res mag eps) p)) = true ->
  filterVs (p :: rest) eps = Some [p].
Proof.
  intros Hmag Hnan. rewrite (filterVs_kept _ _ _ Hmag), kept_nil_cons.
  by rewrite kept_nan_key.
Qed.

Lemma filterVs_nan_first_key_witness :
  filterVs [V3 infinity 1 2; V3 1 2 3; V3 4 5 6] 0x1p-20
  = Some [V3 infinity 1 2].
Proof.
  apply (filterVs_nan_first_key _ _ _ infinity); reflexivity.
Defined.

End FilterVsMore.

(** ** The scale of a cloud: zero and infinite [mag] *)
Module MagFacts.
Import geo_utils Spec Invariants FloatOrder FloatFacts FloatSpecial KeyOrder
  FilterFacts KeptFacts FilterVsTheorems FurtherProperties FilterVsMore.

Lemma abs_leb_zero (x m : float) :
  (abs x <=? m) = true -> (m =? 0) = true -> (x =? 0) = true.
Proof. intros. float_order; unfold rank_wf in *; simpl in *; lia. Qed.

Lemma cloud_mag_cons (rV : Matrix3Xd) (mag : float) :
  cloud_mag rV = Some mag -> rV <> [].
Proof. intros H ->. discriminate. Qed.

(** For a cloud whose coordinates are numbers, [mag] is zero, and the
    resolution divides by zero, exactly when every coordinate is zero. *)
Theorem cloud_mag_zero_iff (rV : Matrix3Xd) (mag : float) :
  cloud_mag rV = Some mag -> cloud_numbers rV = true ->
  ((mag =? 0) = true <-> all_zero rV = true).
Proof.
  intros Hmag Hnum. split.
  - intros Hz. destruct (cloud_mag_largest_abs _ _ Hmag Hnum) as [_ Hall].
    unfold all_zero. apply forallb_forall. intros x Hx%list_elem_of_In.
    rewrite Forall_forall in Hall. unfold fabs in Hall.
    apply (abs_leb_zero x mag); auto.
  - intros Hz. rewrite (all_zero_mag rV (cloud_mag_cons _ _ Hmag) Hz) in Hmag.
    by injection Hmag as <-.
Qed.

Lemma cloud_mag_zero_iff_witness :
  (0 =? 0) = true <-> all_zero [V3 0 (-0) 0; V3 0 0 0] = true.
Proof.
  apply (cloud_mag_zero_iff [V3 0 (-0) 0; V3 0 0 0] 0); reflexivity.
Defined.

(** *** An infinite coordinate *)

Lemma is_finite_cases (x : float) :
  is_finite x = true ->
  (exists s, Prim2SF x = S754_zero s) \/
  (exists s m e, Prim2SF x = S754_finite s m e).
Proof.
  intros H. destruct (Prim2SF x) as [s|s| |s m e] eqn:E; eauto.
  - by rewrite (not_finite_infinity _ _ E) in H.
  - by rewrite (not_finite_nan _ E) in H.
Qed.

Lemma Prim2SF_zero (x : float) (s : bool) :
  Prim2SF x = S754_zero s -> x = (if s then -0 else 0).
Proof. intros H. apply Prim2SF_inj. rewrite H. by destruct s. Qed.

(** A finite number divided by plus infinity is a zero. *)
Lemma div_infinity (x : float) :
  is_finite x = true -> x / infinity = 0 \/ x / infinity = -0.
Proof.
  intros H.
  assert (E : exists s, Prim2SF (x / infinity) = S754_zero s).
  { rewrite div_spec. change (Prim2SF infinity) with (S754_infinity false).
    unfold SF64div.
    destruct (is_finite_cases x H) as [[s ->] | (s & m & e & ->)]; simpl; eauto. }
  destruct E as [[] E]; apply Prim2SF_zero in E; auto.
Qed.

Lemma is_finite_finite (y : float) (s : bool) (m : positive) (e : Z) :
  Prim2SF y = S754_finite s m e -> is_finite y = true.
Proof.
  intros E. unfold is_finite.
  assert (Hn : is_nan y = false).
  { rewrite is_nan_fnum. unfold fnum. by rewrite E. }
  assert (Hi : is_infinity y = false).
  { unfold is_infinity. apply eqb_rank_false. intros (_ & _ & Hr).
    unfold frank in Hr. rewrite abs_spec, E in Hr.
    change (Prim2SF infinity) with (S754_infinity false) in Hr.
    unfold lex_eq in Hr. simpl in Hr. lia. }
  by rewrite Hn, Hi.
Qed.

Lemma fabs_finite (x : float) : is_finite x = true -> is_finite (fabs x) = true.
Proof.
  intros H. unfold fabs.
  destruct (is_finite_cases x H) as [[s E] | (s & m & e & E)].
  - assert (abs x = 0) as ->; [|reflexivity].
    apply Prim2SF_inj. by rewrite abs_spec, E.
  - apply (is_finite_finite _ false m e). by rewrite abs_spec, E.
Qed.

(** With an infinite [mag] and a finite tolerance the resolution is infinite. *)
Lemma filterVs_res_infinity (eps : float) :
  is_finite eps = true -> filterVs_res infinity eps = infinity.
Proof.
  intros H. unfold filterVs_res.
  destruct (div_infinity (fabs eps) (fabs_finite _ H)) as [-> | ->]; reflexivity.
Qed.

Lemma zero_key (p : Vector3d) :
  finite_point p = true -> key_eqb (quantize infinity p) (V3 0 0 0) = true.
Proof.
  unfold finite_point. intros [[H0 H1]%andb_true_iff H2]%andb_true_iff.
  unfold quantize, v3_div, v3_round, key_eqb. simpl.
  destruct (div_infinity _ H0) as [-> | ->], (div_infinity _ H1) as [-> | ->],
    (div_infinity _ H2) as [-> | ->]; reflexivity.
Qed.

Lemma rank_infinity (f : spec_float) :
  num f = true -> lex_le (rank (S754_infinity false)) (rank (SFabs f)) ->
  SFabs f = S754_infinity false.
Proof.
  unfold lex_le, lex_lt, lex_eq.
  destruct f as [[]|[]| |[] m e]; simpl; intros ? ?; try reflexivity;
    try discriminate; lia.
Qed.

(** An infinite number is at most the absolute value of infinite numbers only. *)
Lemma abs_infinite_max (x y : float) :
  is_infinity x = true -> (abs x <=? abs y) = true -> abs y = infinity.
Proof.
  intros Hx Hle. unfold is_infinity in Hx.
  assert (H : (infinity <=? abs y) = true) by float_order.
  apply Prim2SF_infinity. rewrite abs_spec.
  rewrite FloatAxioms.leb_spec, abs_spec in H.
  apply SFleb_rank in H as (_ & Hn & Hr). rewrite num_SFabs in Hn.
  by apply rank_infinity.
Qed.

Lemma cloud_mag_infinite (rV : Matrix3Xd) (mag : float) :
  cloud_mag rV = Some mag -> cloud_numbers rV = true ->
  existsb is_infinity (coeffs rV) = true -> mag = infinity.
Proof.
  intros Hmag Hnum (x & Hx%list_elem_of_In & Hinf)%existsb_exists.
  destruct (cloud_mag_largest_abs _ _ Hmag Hnum) as [Hex Hall].
  apply Exists_exists in Hex as (y & _ & ->).
  rewrite Forall_forall in Hall. unfold fabs in *.
  apply (abs_infinite_max x y Hinf). by apply Hall.
Qed.

(** In a list whose keys [filterLess] orders pairwise, at most one point has
    a key equal to [k]. *)
Lemma at_most_one_with_key (key : Vector3d -> Vector3d) (k : Vector3d)
    (P : Vector3d -> bool) (out : Matrix3Xd) :
  (forall p, P p = true -> key_eqb (key p) k = true) ->
  pairwise_distinct same_key (map key out) = true ->
  (length (List.filter P out) <= 1)%nat.
Proof.
  intros HP. induction out as [|p out IH]; simpl; [lia|].
  intros [Hp Hd]%andb_true_iff. specialize (IH Hd).
  destruct (P p) eqn:Ep; [|exact IH]. simpl.
  assert (E : List.filter P out = []); [|rewrite E; simpl; lia].
  destruct (List.filter P out) as [|q l] eqn:Eq; [reflexivity|].
  assert (Hq : In q (List.filter P out)) by (rewrite Eq; by left).
  apply filter_In in Hq as [Hq Pq].
  rewrite forallb_forall in Hp.
  specialize (Hp (key q) (in_map key _ _ Hq)). apply negb_true_iff in Hp.
  rewrite key_eqb_same_key in Hp; [discriminate|].
  apply (key_eqb_trans _ k); [by apply HP|].
  rewrite key_eqb_sym. by apply HP.
Qed.

(** A cloud without NaN that has an infinite coordinate has [mag = inf] and,
    for a finite tolerance, [res = inf]: every point with finite coordinates
    gets the key zero, and [filterVs] returns at most one such point. *)
Theorem filterVs_infinite_coordinate_collapses (rV fV : Matrix3Xd)
    (eps : float) :
  cloud_numbers rV = true ->
  existsb is_infinity (coeffs rV) = true ->
  is_finite eps = true ->
  filterVs rV eps = Some fV ->
  cloud_mag rV = Some infinity /\
  filterVs_res infinity eps = infinity /\
  (length (List.filter finite_point fV) <= 1)%nat.
Proof.
  intros Hnum Hinf Heps Hout.
  assert (Hmag : cloud_mag rV = Some infinity).
  { destruct (cloud_mag rV) as [mag|] eqn:Hmag.
    - by rewrite (cloud_mag_infinite _ _ Hmag Hnum Hinf).
    - unfold filterVs in Hout. by rewrite Hmag in Hout. }
  split_and!; [done | by apply filterVs_res_infinity |].
  rewrite (filterVs_kept _ _ _ Hmag), (filterVs_res_infinity _ Heps) in Hout.
  injection Hout as <-.
  destruct (kept_separated infinity rV [] I) as (Hd & _ & _).
  apply (at_most_one_with_key (quantize infinity) (V3 0 0 0)); [|exact Hd].
  apply zero_key.
Qed.

Lemma filterVs_infinite_coordinate_collapses_witness :
  cloud_mag [V3 1 2 3; V3 4 5 6; V3 0 neg_infinity 0; V3 7 8 9] = Some infinity /\
  filterVs_res infinity Examples.default_epsilon = infinity /\
  (length (List.filter finite_point [V3 1 2 3]) <= 1)%nat.
Proof.
  apply (filterVs_infinite_coordinate_collapses
           [V3 1 2 3; V3 4 5 6; V3 0 neg_infinity 0; V3 7 8 9] [V3 1 2 3]
           Examples.default_epsilon); reflexivity.
Defined.

End MagFacts.

(** ** More about the functions that call the external solvers *)
Module OracleMore.
Import geo_utils Spec Invariants FloatOrder FloatFacts FloatSpecial
  FilterVsTheorems FurtherProperties FilterVsMore OracleTheorems.

(** The indices of the full triples of an index buffer are columns of a
    point buffer of [n] columns. *)
Definition facets_in_range (n : nat) (idBuffer : list nat) : bool :=
  forallb (fun i => i <? n)%nat (take (3 * (length idBuffer / 3)) idBuffer).

Section WithOracles.

Variable linprog : Vector4d -> MatrixX4d -> VectorXd -> float * Vector4d.
Variable getConvexHull : Matrix3Xd -> bool -> bool -> float -> list nat.
Variable defaultEps : float.

(** *** [overlap] *)

Lemma ltb_opp_monotone (v eps eps' : float) :
  (eps' <=? eps) = true -> (v <? - eps) = true -> (v <? - eps') = true.
Proof. intros. float_order. Qed.

(** A smaller margin is a weaker test: regions that overlap with the margin
    [eps] overlap with every margin [eps' <= eps]. *)
Theorem overlap_smaller_eps (hPoly0 hPoly1 : MatrixX4d) (eps eps' : float) :
  (eps' <=? eps) = true ->
  overlap linprog hPoly0 hPoly1 eps = true ->
  overlap linprog hPoly0 hPoly1 eps' = true.
Proof.
  intros Hle. rewrite !overlap_flag. simpl.
  intros [Hlt Hinf]%andb_true_iff.
  by rewrite (ltb_opp_monotone _ _ _ Hle Hlt), Hinf.
Qed.

(** [overlap] sees its two arguments only as one stack of rows: two pairs of
    systems with the same rows in the same order get the same answer. *)
Theorem overlap_stacked_rows (A B A' B' : MatrixX4d) (eps : float) :
  A ++ B = A' ++ B' ->
  overlap linprog A B eps = overlap linprog A' B' eps.
Proof.
  intros H. rewrite !overlap_flag. unfold overlap_A, overlap_b.
  by rewrite <- !map_app, H.
Qed.

(** *** The systems handed to the LP oracle *)

Lemma length_zip_with_map {B C : Type} (f : Vector4d -> B -> C)
    (g : Vector4d -> B) (l : MatrixX4d) :
  length (zip_with f l (map g l)) = length l.
Proof. induction l as [|a l IH]; simpl; congruence. Qed.

Lemma Forall_zip_with_map {B C : Type} (P : C -> Prop)
    (f : Vector4d -> B -> C) (g : Vector4d -> B) (l : MatrixX4d) :
  (forall h, P (f h (g h))) -> Forall P (zip_with f l (map g l)).
Proof. intros H. induction l as [|a l IH]; simpl; constructor; auto. Qed.

(** [findInterior] and [overlap] call the LP oracle with as many right-hand
    sides as rows ([m], and [m + n]), and with the coefficient [1] of the shift
    variable in every row. *)
Theorem lp_systems_well_formed (hPoly hPoly1 : MatrixX4d) :
  (length (findInterior_A hPoly) = length hPoly /\
   length (findInterior_b hPoly) = length hPoly /\
   Forall (fun row => h3 row = 1) (findInterior_A hPoly)) /\
  (length (overlap_A hPoly hPoly1) = (length hPoly + length hPoly1)%nat /\
   length (overlap_b hPoly hPoly1) = (length hPoly + length hPoly1)%nat /\
   Forall (fun row => h3 row = 1) (overlap_A hPoly hPoly1)).
Proof.
  unfold findInterior_A, findInterior_b, hNorm, overlap_A, overlap_b.
  split; split_and!.
  - apply length_zip_with_map.
  - apply length_zip_with_map.
  - by apply Forall_zip_with_map.
  - by rewrite length_app, !length_map.
  - by rewrite length_app, !length_map.
  - apply Forall_app. split; apply Forall_forall;
      intros row (h & <- & _)%list_elem_of_In%in_map_iff; reflexivity.
Qed.

(** *** When [enumerateVs] fails, and how many vertices it returns *)

Lemma take_3_cons (i0 i1 i2 : nat) (rest : list nat) :
  take (3 * (length (i0 :: i1 :: i2 :: rest) / 3)) (i0 :: i1 :: i2 :: rest)
  = i0 :: i1 :: i2 :: take (3 * (length rest / 3)) rest.
Proof.
  rewrite length_div3.
  replace (3 * S (length rest / 3))%nat
    with (S (S (S (3 * (length rest / 3))))) by lia.
  reflexivity.
Qed.

Lemma lookup_in_range (pts : Matrix3Xd) (i : nat) :
  (i <? length pts)%nat = true -> exists p, pts !! i = Some p.
Proof. intros H%Nat.ltb_lt. by apply lookup_lt_is_Some_2. Qed.

Lemma lookup_out_of_range (pts : Matrix3Xd) (i : nat) :
  (i <? length pts)%nat = false -> pts !! i = None.
Proof. intros H%Nat.ltb_ge. by apply lookup_ge_None_2. Qed.

(** The facets can be read exactly when the indices of the full triples are
    columns of the point buffer; there are then [size / 3] of them. *)
Lemma facets_Some (pts : Matrix3Xd) (idBuffer : list nat) :
  if facets_in_range (length pts) idBuffer
  then exists fs, facets pts idBuffer = Some fs /\
                  length fs = (length idBuffer / 3)%nat
  else facets pts idBuffer = None.
Proof.
  unfold facets_in_range.
  induction idBuffer as [|a|a b|i0 i1 i2 rest IH] using list_ind3;
    try (simpl; eauto; fail).
  rewrite take_3_cons, length_div3.
  change (forallb (fun i => i <? length pts)%nat
            (i0 :: i1 :: i2 :: take (3 * (length rest / 3)) rest))
    with ((i0 <? length pts)%nat && ((i1 <? length pts)%nat &&
          ((i2 <? length pts)%nat &&
           forallb (fun i => i <? length pts)%nat
                   (take (3 * (length rest / 3)) rest)))).
  simpl facets.
  destruct (i0 <? length pts)%nat eqn:E0;
    [destruct (lookup_in_range _ _ E0) as [p0 ->]
    | rewrite (lookup_out_of_range _ _ E0); reflexivity].
  destruct (i1 <? length pts)%nat eqn:E1;
    [destruct (lookup_in_range _ _ E1) as [p1 ->]
    | rewrite (lookup_out_of_range _ _ E1); reflexivity].
  destruct (i2 <? length pts)%nat eqn:E2;
    [destruct (lookup_in_range _ _ E2) as [p2 ->]
    | rewrite (lookup_out_of_range _ _ E2); reflexivity].
  simpl.
  destruct (forallb _ _).
  - destruct IH as (fs & -> & Hlen). eexists. split; [reflexivity|].
    simpl. by rewrite Hlen.
  - by rewrite IH.
Qed.

(** [enumerateVs] fails exactly when the hull has no facet (fewer than three
    indices) or a facet names a dual point that does not exist; otherwise it
    returns at least one vertex and at most one for each facet. *)
Theorem enumerateVs_fails_iff (hPoly : MatrixX4d) (inner : Vector3d)
    (eps : float) :
  let idBuffer :=
    getConvexHull (enumerateVs_A hPoly inner) false true
                  (std_min eps defaultEps) in
  (enumerateVs getConvexHull defaultEps hPoly inner eps = None <->
   (length idBuffer < 3)%nat \/
   facets_in_range (length hPoly) idBuffer = false) /\
  (forall vPoly,
     enumerateVs getConvexHull defaultEps hPoly inner eps = Some vPoly ->
     (1 <= length vPoly <= length idBuffer / 3)%nat).
Proof.
  intros idBuffer. unfold enumerateVs. fold idBuffer. clearbody idBuffer.
  rewrite mapM_facet_vertex.
  pose proof (facets_Some (enumerateVs_A hPoly inner) idBuffer) as Hf.
  assert (HlenA : length (enumerateVs_A hPoly inner) = length hPoly).
  { by rewrite enumerateVs_A_dual, length_map. }
  rewrite HlenA in Hf.
  assert (Hdiv : (length idBuffer / 3 = 0 <-> length idBuffer < 3)%nat).
  { apply Nat.div_small_iff. lia. }
  destruct (facets_in_range (length hPoly) idBuffer).
  - destruct Hf as (fs & -> & Hlen).
    destruct (filterVs (map primal_vertex fs) eps) as [fV|] eqn:EfV.
    + destruct (filterVs_fails_bounds _ _ _ EfV) as [Hlo Hhi].
      rewrite length_map in Hhi. split.
      * split; [discriminate|]. intros [H | H]; [|discriminate].
        apply Hdiv in H. rewrite H in Hlen. destruct fs; [|discriminate].
        discriminate EfV.
      * intros vPoly [= <-]. rewrite length_map. lia.
    + split; [|discriminate].
      split; [|done]. intros _. left. apply Hdiv. rewrite <- Hlen.
      apply filterVs_None_iff in EfV.
      by destruct fs.
  - rewrite Hf. split; [|discriminate]. split; auto.
Qed.

Lemma enumerateVs_Some_bounds (hPoly : MatrixX4d) (inner : Vector3d)
    (eps : float) (vPoly : Matrix3Xd) :
  enumerateVs getConvexHull defaultEps hPoly inner eps = Some vPoly ->
  (1 <= length vPoly)%nat.
Proof.
  unfold enumerateVs. destruct (mapM _ _) as [rV|]; [|discriminate].
  destruct (filterVs rV eps) as [fV|] eqn:EfV; [|discriminate].
  intros [= <-]. rewrite length_map.
  by destruct (filterVs_fails_bounds _ _ _ EfV).
Qed.

(** When the overload of [enumerateVs] returns true, [findInterior] had
    returned true and [vPoly] holds at least one vertex; when it returns
    false, [vPoly] is what it was. *)
Theorem enumerateVs_auto_returns (hPoly : MatrixX4d) (vPoly vPoly' : Matrix3Xd)
    (eps : float) (inner0 : Vector3d) (flag : bool) :
  enumerateVs_auto linprog getConvexHull defaultEps hPoly vPoly eps inner0
    = Some (flag, vPoly') ->
  (findInterior linprog hPoly inner0).1 = flag /\
  (if flag then (1 <= length vPoly')%nat else vPoly' = vPoly).
Proof.
  unfold enumerateVs_auto.
  destruct (findInterior linprog hPoly inner0) as [found inner]. simpl.
  destruct found.
  - destruct (enumerateVs _ _ _ _ _) as [v|] eqn:Ev; [|discriminate].
    intros [= <- <-]. split; [reflexivity|].
    by apply (enumerateVs_Some_bounds _ _ _ _ Ev).
  - by intros [= <- <-].
Qed.

End WithOracles.

Lemma enumerateVs_auto_returns_witness :
  (findInterior (candidate_linprog Examples.candidates) (Examples.cube 0 1)
                (V3 7 7 7)).1 = true /\
  (1 <= length [V3 1 1 1; V3 0 1 1; V3 0 0 1; V3 1 0 1;
                V3 1 1 0; V3 0 1 0; V3 0 0 0; V3 1 0 0])%nat.
Proof.
  apply (enumerateVs_auto_returns (candidate_linprog Examples.candidates)
           Examples.octahedron_hull 0x1p-23 (Examples.cube 0 1) []
           _ Examples.default_epsilon (V3 7 7 7) true).
  reflexivity.
Defined.

Lemma overlap_smaller_eps_witness :
  overlap (candidate_linprog Examples.candidates) (Examples.cube 0 1)
          (Examples.cube 0.5 1.5) 0 = true.
Proof.
  apply (overlap_smaller_eps (candidate_linprog Examples.candidates)
           _ _ Examples.default_epsilon 0); reflexivity.
Defined.

Lemma overlap_stacked_rows_witness :
  overlap (candidate_linprog Examples.candidates) (Examples.cube 0 1)
          (Examples.cube 0.5 1.5) Examples.default_epsilon =
  overlap (candidate_linprog Examples.candidates)
          (Examples.cube 0 1 ++ Examples.cube 0.5 1.5) []
          Examples.default_epsilon.
Proof.
  apply (overlap_stacked_rows (candidate_linprog Examples.candidates)).
  reflexivity.
Defined.

Lemma enumerateVs_fails_iff_witness :
  (1 <= length [V3 1 1 1; V3 0 1 1; V3 0 0 1; V3 1 0 1;
                V3 1 1 0; V3 0 1 0; V3 0 0 0; V3 1 0 0] <= 24 / 3)%nat.
Proof.
  apply (proj2 (enumerateVs_fails_iff Examples.octahedron_hull 0x1p-23
                  (Examples.cube 0 1) (V3 0.5 0.5 0.5)
                  Examples.default_epsilon)).
  reflexivity.
Defined.

End OracleMore.
